(** * obsidian-ai-tools: the plugin host ([src/main.ts]) in Rocq

  A shallow embedding of [main.ts]: the settings record, the two nullable
  provider clients, the status bar, the two commands, the search modal and
  the settings tab, together with the library functions they call
  (String.prototype.split / trim, common-tags' oneLine). *)

From Stdlib Require Import NArith String Ascii Bool Lia.
From stdpp Require Import base option list gmap.

Local Open Scope N_scope.

(** ** JavaScript strings

  A JavaScript string is a sequence of UTF-16 code units.  [trim] and the
  regular-expression class [\s] are defined on code units, so the model
  keeps them as numbers. *)

Module JS.

Abbreviation jsstring := (list N).

Definition of_ascii (s : string) : jsstring :=
  map N_of_ascii (list_ascii_of_string s).

Definition LF : N := 10.
Definition SPACE : N := 32.
Definition COMMA : N := 44.

(** ECMAScript WhiteSpace and LineTerminator code points: what
    [String.prototype.trim] strips and what [\s] matches. *)
Definition is_space (c : N) : bool :=
  (c =? 9) || (c =? 10) || (c =? 11) || (c =? 12) || (c =? 13) ||
  (c =? 32) || (c =? 160) || (c =? 5760) ||
  ((8192 <=? c) && (c <=? 8202)) ||
  (c =? 8232) || (c =? 8233) || (c =? 8239) || (c =? 8287) ||
  (c =? 12288) || (c =? 65279).

Fixpoint trimStart (s : jsstring) : jsstring :=
  match s with
  | [] => []
  | c :: s' => if is_space c then trimStart s' else s
  end.

Definition trimEnd (s : jsstring) : jsstring := reverse (trimStart (reverse s)).

(** [s.trim()] *)
Definition trim (s : jsstring) : jsstring := trimEnd (trimStart s).

(** [s.split(sep)] for a separator of one code unit: the substrings
    between successive occurrences of [sep]; a string without [sep]
    (the empty string too) is returned whole, as the only element. *)
Fixpoint split (sep : N) (s : jsstring) : list jsstring :=
  match s with
  | [] => [[]]
  | c :: s' =>
      if c =? sep then [] :: split sep s'
      else match split sep s' with
           | p :: ps => (c :: p) :: ps
           | [] => [[c]]
           end
  end.

(** [pieces.join(sep)] *)
Fixpoint join (sep : N) (pieces : list jsstring) : jsstring :=
  match pieces with
  | [] => []
  | [p] => p
  | p :: ps => p ++ sep :: join sep ps
  end.

(** [s.startsWith(prefix)] *)
Fixpoint startsWith (s prefix : jsstring) : bool :=
  match prefix, s with
  | [], _ => true
  | _ :: _, [] => false
  | a :: prefix', c :: s' => (a =? c) && startsWith s' prefix'
  end.

(** The nullish values of JavaScript next to a proper value: a field
    declared [T | null] and never initialised reads [undefined]. *)
Inductive nullable (A : Type) : Type :=
| Undefined
| Null
| Val (a : A).
Global Arguments Undefined {A}.
Global Arguments Null {A}.
Global Arguments Val {A} a.

(** [x !== null] *)
Definition not_null {A} (x : nullable A) : bool :=
  match x with Null => false | _ => true end.

(** ToBoolean of an object reference or a nullish value. *)
Definition truthy {A} (x : nullable A) : bool :=
  match x with Val _ => true | _ => false end.

(** [x ?? d] *)
Definition nullish_or {A} (x : nullable A) (d : A) : A :=
  match x with Val a => a | _ => d end.

End JS.
Import JS.

(** ** common-tags

  [oneLine] is the template tag built from two end-result transformers:
  a global replace of the pattern "one or more times: a line feed, then
  any number of [\s] code units" by one space, and a trim.  So a line feed
  and all the white space that follows it (further line feeds included)
  become one space, and the end result is trimmed. *)

Module CommonTags.

(** The global replace, as the scan of the regex engine: [in_match] says
    that the code units read lie inside a match already opened by a line
    feed. *)
Fixpoint replace_newlines (in_match : bool) (s : jsstring) : jsstring :=
  match s with
  | [] => []
  | c :: s' =>
      if in_match then
        if is_space c then replace_newlines true s'
        else c :: replace_newlines false s'
      else
        if c =? LF then SPACE :: replace_newlines true s'
        else c :: replace_newlines false s'
  end.

(** [oneLine`${value}`]: the template has the two empty literal parts
    around the single substitution, so the tag works on [value] itself. *)
Definition oneLine (value : jsstring) : jsstring :=
  trim (replace_newlines false value).

End CommonTags.
Import CommonTags.

(** ** Data of [main.ts] *)

Record ObsidianAISettings : Type := {
  supabaseUrl : jsstring;
  supabaseKey : jsstring;
  openaiKey : jsstring;
  indexOnOpen : bool;
  excludedDirs : jsstring;
  excludedDirsList : list jsstring;
  publicDirs : jsstring;
  publicDirsList : list jsstring;
  prompt : jsstring
}.

(** The template literal of the default prompt, line by line as it stands
    in the source: each line break is followed by the two tabs of the
    source's indentation. *)
Definition DEFAULT_PROMPT_TEMPLATE : jsstring :=
  let nl := [LF; 9; 9] in
  of_ascii "Your name is Obsidian, you are a 22-year-old university student who studies" ++ nl ++
  of_ascii "Electronics and Electrical Engineering at University College London. Given" ++ nl ++
  of_ascii "the following sections from your notes, answer the question with the provided information. If" ++ nl ++
  of_ascii "you are unsure, and the notes don't include relevant information, you may also say" ++ nl ++
  [34] ++ of_ascii "Sorry, I don't know the answer to this question :(" ++ [34].

Definition DEFAULT_SETTINGS : ObsidianAISettings := {|
  supabaseUrl := [];
  supabaseKey := [];
  openaiKey := [];
  indexOnOpen := false;
  excludedDirs := [];
  excludedDirsList := [];
  publicDirs := [];
  publicDirsList := [];
  prompt := oneLine DEFAULT_PROMPT_TEMPLATE
|}.

(** Objects have identity: a client lives at an address of the heap and the
    plugin's fields hold references. *)
Abbreviation addr := nat.

Record SupabaseClient : Type := {
  sb_url : jsstring;
  sb_key : jsstring;
  sb_persistSession : bool;
  sb_autoRefreshToken : bool
}.

Record OpenAIApi : Type := { oa_apiKey : jsstring }.

Inductive object : Type :=
| ObjSupabase (c : SupabaseClient)
| ObjOpenAI (c : OpenAIApi).

Record AISearchModal : Type := {
  m_supabaseClient : nullable addr;
  m_openai : nullable addr;
  m_prompt : jsstring
}.

(** Who started a run of [generateEmbeddings]. *)
Inductive origin : Type := IndexOnOpen | RefreshCommand.

(** A call of [generateEmbeddings] whose promise has not settled yet. *)
Record Run : Type := {
  run_id : nat;
  run_origin : origin;
  run_supabaseClient : nullable addr;
  run_openai : nullable addr;
  run_excludedDirsList : list jsstring;
  run_publicDirsList : list jsstring
}.

(** What the plugin does to its surroundings, in order. *)
Inductive event : Type :=
| EvSetText (text : string)
| EvSaveData (s : ObsidianAISettings)
| EvGenerateEmbeddings (r : Run)
| EvOpenModal (m : AISearchModal).

Definition STATUS_MISSING : string := "❓[AI] Missing API variables".
Definition STATUS_READY : string := "✨ [AI] Ready".
Definition STATUS_INDEXING : string := "🔮 [AI] Indexing...".
Definition STATUS_LOADED : string := "✨ [AI] Loaded".
Definition STATUS_ERROR : string := "😔 [AI] Error".

(** The plugin object ([this.settings], [this.supabaseClient],
    [this.openai], the text of [this.statusBarItemEl]) and what surrounds
    it: the heap of client objects, the plugin's saved data, the effects so
    far (newest first), the runs in flight and the callback waiting for the
    workspace layout.  [console.log] is left out. *)
Record World : Type := {
  settings : ObsidianAISettings;
  supabaseClient : nullable addr;
  openai : nullable addr;
  statusBarItemEl : string;
  heap : gmap addr object;
  data : option ObsidianAISettings;
  effects : list event;
  runs : list Run;
  nextRun : nat;
  layoutCallback : bool
}.

(** ** A state monad for the plugin's methods *)

Definition M (A : Type) : Type := World -> A * World.

Definition ret {A} (a : A) : M A := fun w => (a, w).

Definition bind {A B} (c : M A) (k : A -> M B) : M B :=
  fun w => let (a, w') := c w in k a w'.

Definition gets {A} (f : World -> A) : M A := fun w => (f w, w).

Definition modify (f : World -> World) : M unit := fun w => (tt, f w).

Declare Scope plugin_scope.
Delimit Scope plugin_scope with plugin.
Notation "'let*' x ':=' c 'in' k" := (bind c (fun x => k))
  (at level 10, x name, c at level 100, k at level 200) : plugin_scope.
Notation "c '>>' k" := (bind c (fun _ => k))
  (at level 90, right associativity) : plugin_scope.
Local Open Scope plugin_scope.

Definition when (b : bool) (c : M unit) : M unit := if b then c else ret tt.

(** Running a method for its final state, or for its result. *)
Definition exec_of {A} (c : M A) (w : World) : World := snd (c w).
Definition result_of {A} (c : M A) (w : World) : A := fst (c w).

(** Field updates. *)
Definition with_settings (s : ObsidianAISettings) (w : World) : World :=
  {| settings := s; supabaseClient := supabaseClient w; openai := openai w;
     statusBarItemEl := statusBarItemEl w; heap := heap w; data := data w;
     effects := effects w; runs := runs w; nextRun := nextRun w;
     layoutCallback := layoutCallback w |}.

Definition with_supabaseClient (c : nullable addr) (w : World) : World :=
  {| settings := settings w; supabaseClient := c; openai := openai w;
     statusBarItemEl := statusBarItemEl w; heap := heap w; data := data w;
     effects := effects w; runs := runs w; nextRun := nextRun w;
     layoutCallback := layoutCallback w |}.

Definition with_openai (c : nullable addr) (w : World) : World :=
  {| settings := settings w; supabaseClient := supabaseClient w; openai := c;
     statusBarItemEl := statusBarItemEl w; heap := heap w; data := data w;
     effects := effects w; runs := runs w; nextRun := nextRun w;
     layoutCallback := layoutCallback w |}.

Definition with_status (t : string) (w : World) : World :=
  {| settings := settings w; supabaseClient := supabaseClient w; openai := openai w;
     statusBarItemEl := t; heap := heap w; data := data w;
     effects := effects w; runs := runs w; nextRun := nextRun w;
     layoutCallback := layoutCallback w |}.

Definition with_heap (h : gmap addr object) (w : World) : World :=
  {| settings := settings w; supabaseClient := supabaseClient w; openai := openai w;
     statusBarItemEl := statusBarItemEl w; heap := h; data := data w;
     effects := effects w; runs := runs w; nextRun := nextRun w;
     layoutCallback := layoutCallback w |}.

Definition with_data (d : option ObsidianAISettings) (w : World) : World :=
  {| settings := settings w; supabaseClient := supabaseClient w; openai := openai w;
     statusBarItemEl := statusBarItemEl w; heap := heap w; data := d;
     effects := effects w; runs := runs w; nextRun := nextRun w;
     layoutCallback := layoutCallback w |}.

Definition with_effects (l : list event) (w : World) : World :=
  {| settings := settings w; supabaseClient := supabaseClient w; openai := openai w;
     statusBarItemEl := statusBarItemEl w; heap := heap w; data := data w;
     effects := l; runs := runs w; nextRun := nextRun w;
     layoutCallback := layoutCallback w |}.

Definition with_runs (l : list Run) (w : World) : World :=
  {| settings := settings w; supabaseClient := supabaseClient w; openai := openai w;
     statusBarItemEl := statusBarItemEl w; heap := heap w; data := data w;
     effects := effects w; runs := l; nextRun := nextRun w;
     layoutCallback := layoutCallback w |}.

Definition with_nextRun (n : nat) (w : World) : World :=
  {| settings := settings w; supabaseClient := supabaseClient w; openai := openai w;
     statusBarItemEl := statusBarItemEl w; heap := heap w; data := data w;
     effects := effects w; runs := runs w; nextRun := n;
     layoutCallback := layoutCallback w |}.

Definition with_layoutCallback (b : bool) (w : World) : World :=
  {| settings := settings w; supabaseClient := supabaseClient w; openai := openai w;
     statusBarItemEl := statusBarItemEl w; heap := heap w; data := data w;
     effects := effects w; runs := runs w; nextRun := nextRun w;
     layoutCallback := b |}.

Definition emit (e : event) : M unit :=
  modify (fun w => with_effects (e :: effects w) w).

(** [this.statusBarItemEl.setText(text)] *)
Definition setText (text : string) : M unit :=
  modify (with_status text) >> emit (EvSetText text).

(** Allocation of a new object: an address the heap does not use yet. *)
Definition alloc (o : object) : M addr :=
  fun w => let a := fresh (dom (heap w)) in (a, with_heap (<[a := o]> (heap w)) w).

(** [createClient(url, key, { auth: { persistSession: false, autoRefreshToken: false } })] *)
Definition createClient (url key : jsstring) : M addr :=
  alloc (ObjSupabase {| sb_url := url; sb_key := key;
                        sb_persistSession := false; sb_autoRefreshToken := false |}).

(** [new OpenAIApi(new Configuration({ apiKey }))] *)
Definition newOpenAIApi (apiKey : jsstring) : M addr :=
  alloc (ObjOpenAI {| oa_apiKey := apiKey |}).

(** [s === ""] *)
Definition is_empty (s : jsstring) : bool :=
  match s with [] => true | _ => false end.

Definition setupSupabase : M unit :=
  modify (with_supabaseClient Null) >>
  let* s := gets settings in
  when (negb (is_empty (supabaseUrl s) || is_empty (supabaseKey s)))
       (let* c := createClient (supabaseUrl s) (supabaseKey s) in
        modify (with_supabaseClient (Val c))) >>
  let* sb := gets supabaseClient in
  let* oa := gets openai in
  if negb (truthy sb && truthy oa) then setText STATUS_MISSING
  else setText STATUS_READY.

Definition setupOpenai : M unit :=
  modify (with_openai Null) >>
  let* s := gets settings in
  when (negb (is_empty (openaiKey s)))
       (let* c := newOpenAIApi (openaiKey s) in
        modify (with_openai (Val c))) >>
  let* sb := gets supabaseClient in
  let* oa := gets openai in
  if negb (truthy sb && truthy oa) then setText STATUS_MISSING
  else setText STATUS_READY.

(** [generateEmbeddings(supabaseClient, openai, excludedDirsList, publicDirsList)]:
    the function lives in another module; the host sees a promise that
    settles later.  The call puts a run in flight. *)
Definition generateEmbeddings (o : origin) (sb oa : nullable addr)
    (excluded public : list jsstring) : M unit :=
  let* n := gets nextRun in
  let r := {| run_id := n; run_origin := o; run_supabaseClient := sb;
              run_openai := oa; run_excludedDirsList := excluded;
              run_publicDirsList := public |} in
  modify (with_nextRun (S n)) >>
  modify (fun w => with_runs (runs w ++ [r]) w) >>
  emit (EvGenerateEmbeddings r).

(** How a promise ends. *)
Inductive promise (A : Type) : Type :=
| Fulfilled (v : A)
| Rejected (reason : jsstring).
Global Arguments Fulfilled {A} v.
Global Arguments Rejected {A} reason.

Definition in_flight (id : nat) (w : World) : bool :=
  existsb (fun r => Nat.eqb (run_id r) id) (runs w).

(** The [.then(...).catch(...)] chained on the promise of a run: what
    happens when the run [id] settles. *)
Definition settle (id : nat) (o : promise unit) : M unit :=
  let* live := gets (in_flight id) in
  when live
    (modify (fun w => with_runs (filter (fun r => negb (Nat.eqb (run_id r) id)) (runs w)) w) >>
     match o with
     | Fulfilled _ => setText STATUS_LOADED
     | Rejected _ => setText STATUS_ERROR
     end).

Definition loadSettings : M unit :=
  let* d := gets data in
  modify (with_settings (match d with Some s => s | None => DEFAULT_SETTINGS end)).

Definition saveSettings : M unit :=
  let* s := gets settings in
  modify (with_data (Some s)) >> emit (EvSaveData s).

(** The callback given to [this.app.workspace.onLayoutReady]. *)
Definition onLayoutReady_callback : M unit :=
  let* sb := gets supabaseClient in
  let* oa := gets openai in
  when (not_null sb && not_null oa)
    (setText STATUS_INDEXING >>
     let* s := gets settings in
     generateEmbeddings IndexOnOpen sb oa (excludedDirsList s) (publicDirsList s)).

Definition onload : M unit :=
  loadSettings >>
  modify (with_status EmptyString) >>
  setupSupabase >>
  setupOpenai >>
  let* s := gets settings in
  let* sb := gets supabaseClient in
  let* oa := gets openai in
  when (indexOnOpen s && not_null sb && not_null oa)
    (modify (with_layoutCallback true)).

(** [checkCallback] of the command "ai-search". *)
Definition ai_search_checkCallback (checking : bool) : M bool :=
  let* sb := gets supabaseClient in
  let* oa := gets openai in
  if not_null sb && not_null oa then
    when (negb checking)
      (let* s := gets settings in
       emit (EvOpenModal {| m_supabaseClient := sb; m_openai := oa;
                            m_prompt := prompt s |})) >>
    ret true
  else ret false.

(** [checkCallback] of the command "refresh-embedding". *)
Definition refresh_embedding_checkCallback (checking : bool) : M bool :=
  let* sb := gets supabaseClient in
  let* oa := gets openai in
  if not_null sb && not_null oa then
    when (negb checking)
      (setText STATUS_INDEXING >>
       let* s := gets settings in
       generateEmbeddings RefreshCommand sb oa (excludedDirsList s) (publicDirsList s)) >>
    ret true
  else ret false.

(** ** The settings tab: the [onChange] handlers of [SettingTab.display] *)

Definition set_excludedDirs (v : jsstring) (l : list jsstring) (s : ObsidianAISettings) :=
  {| supabaseUrl := supabaseUrl s; supabaseKey := supabaseKey s; openaiKey := openaiKey s;
     indexOnOpen := indexOnOpen s; excludedDirs := v; excludedDirsList := l;
     publicDirs := publicDirs s; publicDirsList := publicDirsList s; prompt := prompt s |}.

Definition set_publicDirs (v : jsstring) (l : list jsstring) (s : ObsidianAISettings) :=
  {| supabaseUrl := supabaseUrl s; supabaseKey := supabaseKey s; openaiKey := openaiKey s;
     indexOnOpen := indexOnOpen s; excludedDirs := excludedDirs s;
     excludedDirsList := excludedDirsList s;
     publicDirs := v; publicDirsList := l; prompt := prompt s |}.

Definition set_prompt (v : jsstring) (s : ObsidianAISettings) :=
  {| supabaseUrl := supabaseUrl s; supabaseKey := supabaseKey s; openaiKey := openaiKey s;
     indexOnOpen := indexOnOpen s; excludedDirs := excludedDirs s;
     excludedDirsList := excludedDirsList s;
     publicDirs := publicDirs s; publicDirsList := publicDirsList s; prompt := v |}.

Definition set_indexOnOpen (v : bool) (s : ObsidianAISettings) :=
  {| supabaseUrl := supabaseUrl s; supabaseKey := supabaseKey s; openaiKey := openaiKey s;
     indexOnOpen := v; excludedDirs := excludedDirs s;
     excludedDirsList := excludedDirsList s;
     publicDirs := publicDirs s; publicDirsList := publicDirsList s; prompt := prompt s |}.

Definition set_supabaseUrl (v : jsstring) (s : ObsidianAISettings) :=
  {| supabaseUrl := v; supabaseKey := supabaseKey s; openaiKey := openaiKey s;
     indexOnOpen := indexOnOpen s; excludedDirs := excludedDirs s;
     excludedDirsList := excludedDirsList s;
     publicDirs := publicDirs s; publicDirsList := publicDirsList s; prompt := prompt s |}.

Definition set_supabaseKey (v : jsstring) (s : ObsidianAISettings) :=
  {| supabaseUrl := supabaseUrl s; supabaseKey := v; openaiKey := openaiKey s;
     indexOnOpen := indexOnOpen s; excludedDirs := excludedDirs s;
     excludedDirsList := excludedDirsList s;
     publicDirs := publicDirs s; publicDirsList := publicDirsList s; prompt := prompt s |}.

Definition set_openaiKey (v : jsstring) (s : ObsidianAISettings) :=
  {| supabaseUrl := supabaseUrl s; supabaseKey := supabaseKey s; openaiKey := v;
     indexOnOpen := indexOnOpen s; excludedDirs := excludedDirs s;
     excludedDirsList := excludedDirsList s;
     publicDirs := publicDirs s; publicDirsList := publicDirsList s; prompt := prompt s |}.

Definition update_settings (f : ObsidianAISettings -> ObsidianAISettings) : M unit :=
  modify (fun w => with_settings (f (settings w)) w).

Definition onChange_excludedDirs (value : jsstring) : M unit :=
  update_settings (set_excludedDirs value (map trim (split COMMA value))) >>
  saveSettings.

Definition onChange_publicDirs (value : jsstring) : M unit :=
  update_settings (set_publicDirs value (map trim (split COMMA value))) >>
  saveSettings.

Definition onChange_prompt (value : jsstring) : M unit :=
  update_settings (set_prompt (oneLine value)) >>
  saveSettings.

Definition onChange_indexOnOpen (value : bool) : M unit :=
  update_settings (set_indexOnOpen value) >>
  saveSettings.

Definition onChange_supabaseUrl (value : jsstring) : M unit :=
  update_settings (set_supabaseUrl value) >>
  saveSettings >>
  setupSupabase.

Definition onChange_supabaseKey (value : jsstring) : M unit :=
  update_settings (set_supabaseKey value) >>
  saveSettings >>
  setupSupabase.

Definition onChange_openaiKey (value : jsstring) : M unit :=
  update_settings (set_openaiKey value) >>
  saveSettings >>
  setupOpenai.

(** The plugin object as the host creates it, before [onload]: no field is
    assigned yet; [d] is the content of the plugin's data file. *)
Definition initial (d : option ObsidianAISettings) : World :=
  {| settings := DEFAULT_SETTINGS; supabaseClient := Undefined; openai := Undefined;
     statusBarItemEl := EmptyString; heap := ∅; data := d; effects := [];
     runs := []; nextRun := O; layoutCallback := false |}.

(** ** What the host and the user can do after [onload] *)

Inductive command : Type := AiSearch | RefreshEmbedding.

Inductive action : Type :=
| ActLayoutReady
| ActCommand (c : command) (checking : bool)
| ActSettle (id : nat) (o : promise unit)
| ActExcludedDirs (value : jsstring)
| ActPublicDirs (value : jsstring)
| ActPrompt (value : jsstring)
| ActIndexOnOpen (value : bool)
| ActSupabaseUrl (value : jsstring)
| ActSupabaseKey (value : jsstring)
| ActOpenaiKey (value : jsstring).

Definition step (a : action) : M unit :=
  match a with
  | ActLayoutReady =>
      let* cb := gets layoutCallback in
      when cb (modify (with_layoutCallback false) >> onLayoutReady_callback)
  | ActCommand AiSearch checking => ai_search_checkCallback checking >> ret tt
  | ActCommand RefreshEmbedding checking =>
      refresh_embedding_checkCallback checking >> ret tt
  | ActSettle id o => settle id o
  | ActExcludedDirs v => onChange_excludedDirs v
  | ActPublicDirs v => onChange_publicDirs v
  | ActPrompt v => onChange_prompt v
  | ActIndexOnOpen v => onChange_indexOnOpen v
  | ActSupabaseUrl v => onChange_supabaseUrl v
  | ActSupabaseKey v => onChange_supabaseKey v
  | ActOpenaiKey v => onChange_openaiKey v
  end.

Fixpoint run_actions (l : list action) (w : World) : World :=
  match l with
  | [] => w
  | a :: l' => run_actions l' (exec_of (step a) w)
  end.

(** ** The search modal *)

Record SearchResult : Type := {
  sr_id : jsstring;
  sr_document_id : jsstring;
  sr_content : jsstring;
  sr_document_path : jsstring;
  sr_similarity : jsstring
}.

(** A Typed instance: its options, and whether [destroy()] was called on
    it. *)
Record Typed : Type := {
  strings : list jsstring;
  typeSpeed : N;
  showCursor : bool;
  destroyed : bool
}.

Definition destroy (t : Typed) : Typed :=
  {| strings := strings t; typeSpeed := typeSpeed t; showCursor := showCursor t;
     destroyed := true |}.

Record KeyboardEvent : Type := { shiftKey : bool; key : jsstring }.

(** The part of the document the modal works on: its Typed instance, the
    content of the element [#answer] and the value of [.prompt-input]. *)
Record ModalDom : Type := {
  typedInstance : option Typed;
  answerHTML : jsstring;
  promptInput : jsstring
}.

Definition NO_ANSWER : jsstring := of_ascii "No answer".

(** What the answer box shows once typing is over: the string a live Typed
    instance was given, or the content of the element when no Typed
    instance runs. *)
Definition shown (d : ModalDom) : jsstring :=
  match typedInstance d with
  | Some t =>
      if destroyed t then answerHTML d
      else match strings t with s :: _ => s | [] => [] end
  | None => answerHTML d
  end.

Section Search.

(** The two functions of [./semantic-search]: they see the client objects
    and their arguments, and answer with a promise. *)
Variable semanticSearch :
  gmap addr object -> nullable addr -> nullable addr -> jsstring -> promise (list SearchResult).
Variable generativeSearch :
  gmap addr object -> nullable addr -> nullable addr -> jsstring -> jsstring ->
  promise (nullable jsstring).


(** The key listener of [onOpen].  The result is the document afterwards,
    and the reason of the rejection when the listener's promise rejects. *)
Definition keyListener (h : gmap addr object) (m : AISearchModal)
    (ev : KeyboardEvent) (d : ModalDom) : ModalDom * option jsstring :=
  if shiftKey ev && bool_decide (key ev = of_ascii "Enter") then
    let d1 := {| typedInstance := destroy <$> typedInstance d;
                 answerHTML := of_ascii "Thinking...";
                 promptInput := promptInput d |} in
    match generativeSearch h (m_supabaseClient m) (m_openai m) (promptInput d1) (m_prompt m) with
    | Fulfilled answer =>
        ({| typedInstance := Some {| strings := [nullish_or answer NO_ANSWER];
                                     typeSpeed := 50; showCursor := false;
                                     destroyed := false |};
            answerHTML := answerHTML d1;
            promptInput := promptInput d1 |}, None)
    | Rejected reason => (d1, Some reason)
    end
  else (d, None).



End Search.

(** ** The indexer

    [./generate-embeddings] is not part of the sources at hand; the
    indexing run is modelled from section 4.2 of the specification. *)

Module Indexer.

(** Modelled from the spec: a document of the external document source,
    "(path, content)"; the types of [generate-embeddings] are missing. *)
Record Document : Type := { doc_path : jsstring; doc_content : jsstring }.

(** Modelled from the spec: the result of the missing [generateEmbeddings],
    "summary{created, updated, deleted, failed}". *)
Record Summary : Type := {
  created : nat;
  updated : nat;
  deleted : nat;
  failed : nat
}.

Section Reindex.

(** The collaborators of the indexer, as the specification names them: the
    content digest, the Chunker with its bound, and the Embedding Client
    ([None] when the provider fails: ProviderError, RateLimited or
    InvalidInput).  Store operations do not fail in this model. *)
Variable vector : Type.
Variable hash : jsstring -> N.
Variable chunk : jsstring -> nat -> list jsstring.
Variable maxTokens : nat.
Variable embed : list jsstring -> option (list vector).

(** Modelled from the spec: a Document of the Vector Store (content hash,
    visibility) with its Chunks (content and embedding); the store's
    schema is missing. *)
Record Stored : Type := {
  st_hash : N;
  st_public : bool;
  st_chunks : list (jsstring * vector)
}.

(** Modelled from the spec: the state of a run of the missing
    [generateEmbeddings]: the Vector Store (one Document per path), the
    counts of the summary, and the number of calls of the Embedding
    Client. *)
Record Outcome : Type := {
  store : gmap jsstring Stored;
  summary : Summary;
  embedCalls : nat
}.

(** Modelled from the spec: a path "matches an entry" of a list of path
    prefixes "(prefix or exact match)"; the matching of
    [generate-embeddings] is missing. *)
Definition matches (dirs : list jsstring) (path : jsstring) : bool :=
  existsb (startsWith path) dirs.

Definition count_created (s : Summary) : Summary :=
  {| created := S (created s); updated := updated s; deleted := deleted s; failed := failed s |}.
Definition count_updated (s : Summary) : Summary :=
  {| created := created s; updated := S (updated s); deleted := deleted s; failed := failed s |}.
Definition count_failed (s : Summary) : Summary :=
  {| created := created s; updated := updated s; deleted := deleted s; failed := S (failed s) |}.
Definition count_deleted (n : nat) (s : Summary) : Summary :=
  {| created := created s; updated := updated s; deleted := (n + deleted s)%nat; failed := failed s |}.

(** Modelled from the spec: step 3 of the algorithm for one document marked
    for re-indexing (the loop body of [generateEmbeddings] is missing): run
    the Chunker, give the chunk texts to the Embedding Client as one batch,
    and replace the document's chunks together with the hash and the
    visibility flag; an empty document is recorded with zero chunks; a
    failure is counted in [failed] and leaves the store as it was. *)
Definition reindex_document (publicPaths : list jsstring) (is_new : bool)
    (d : Document) (acc : Outcome) : Outcome :=
  let texts := chunk (doc_content d) maxTokens in
  let record vs calls :=
    {| store := <[doc_path d := {| st_hash := hash (doc_content d);
                                   st_public := matches publicPaths (doc_path d);
                                   st_chunks := combine texts vs |}]> (store acc);
       summary := (if is_new then count_created else count_updated) (summary acc);
       embedCalls := calls |} in
  match texts with
  | [] => record [] (embedCalls acc)
  | _ :: _ =>
      match embed texts with
      | Some vs => record vs (S (embedCalls acc))
      | None => {| store := store acc; summary := count_failed (summary acc);
                   embedCalls := S (embedCalls acc) |}
      end
  end.

(** Modelled from the spec: step 2 for one candidate (missing with
    [generateEmbeddings]): compare the content hash with the stored one;
    unchanged is skipped, changed or new is re-indexed. *)
Definition index_document (publicPaths : list jsstring) (acc : Outcome) (d : Document)
  : Outcome :=
  match store acc !! doc_path d with
  | Some st =>
      if st_hash st =? hash (doc_content d) then acc
      else reindex_document publicPaths false d acc
  | None => reindex_document publicPaths true d acc
  end.

(** Modelled from the spec: [reindex(excludedPaths, publicPaths)], the
    contract of the missing [generateEmbeddings]: enumerate the candidates
    (documents of the source whose path matches no excluded entry), index
    each one, and delete the stored documents whose path has no matching
    candidate. *)
Definition reindex (excludedPaths publicPaths : list jsstring)
    (source : list Document) (st : gmap jsstring Stored) : Outcome :=
  let candidates := filter (fun d => matches excludedPaths (doc_path d) = false) source in
  let paths := doc_path <$> candidates in
  let gone := size (filter (fun kv : jsstring * Stored => kv.1 ∉ paths) st) in
  let acc := fold_left (index_document publicPaths) candidates
               {| store := st;
                  summary := {| created := O; updated := O; deleted := O; failed := O |};
                  embedCalls := O |} in
  {| store := filter (fun kv : jsstring * Stored => kv.1 ∈ paths) (store acc);
     summary := count_deleted gone (summary acc);
     embedCalls := embedCalls acc |}.

(** A document of the source is up to date in the store: it is stored
    under its path with the hash of its content. *)
Definition up_to_date (st : gmap jsstring Stored) (d : Document) : Prop :=
  exists sd, st !! doc_path d = Some sd /\ st_hash sd = hash (doc_content d).

End Reindex.

Global Arguments st_hash {vector} _.
Global Arguments st_public {vector} _.
Global Arguments st_chunks {vector} _.
Global Arguments store {vector} _.
Global Arguments summary {vector} _.
Global Arguments embedCalls {vector} _.

End Indexer.

(** ** Vocabulary of the properties *)

Definition all_space (s : jsstring) : Prop := Forall (fun c => is_space c = true) s.

Definition no_outer_space (s : jsstring) : Prop :=
  (forall c, head s = Some c -> is_space c = false) /\
  (forall c, last s = Some c -> is_space c = false).

(** [e] is [piece] without the white space at its two ends. *)
Definition trimmed_of (piece e : jsstring) : Prop :=
  exists l r, piece = l ++ e ++ r /\ all_space l /\ all_space r /\ no_outer_space e.

(** [pieces] are the parts of [s] between the occurrences of [sep]. *)
Definition split_of (sep : N) (s : jsstring) (pieces : list jsstring) : Prop :=
  pieces <> [] /\ join sep pieces = s /\ Forall (fun p => sep ∉ p) pieces.

(** The replacement of [oneLine] in words: every line feed, with all the
    white space that follows it, becomes one space; every other code unit
    stays. *)
Inductive newlines_replaced : jsstring -> jsstring -> Prop :=
| nr_nil : newlines_replaced [] []
| nr_keep c s t :
    c <> LF -> newlines_replaced s t -> newlines_replaced (c :: s) (c :: t)
| nr_fold ws s t :
    all_space ws ->
    (forall c, head s = Some c -> is_space c = false) ->
    newlines_replaced s t ->
    newlines_replaced (LF :: ws ++ s) (SPACE :: t).

(** The normalization in the words of the prompt claim: every run of white
    space (line feeds included) becomes one space, then the ends are
    trimmed. *)
Fixpoint collapse_spaces (after_space : bool) (s : jsstring) : jsstring :=
  match s with
  | [] => []
  | c :: s' =>
      if is_space c then
        if after_space then collapse_spaces true s'
        else SPACE :: collapse_spaces true s'
      else c :: collapse_spaces false s'
  end.

Definition oneLine_as_claimed (value : jsstring) : jsstring :=
  trim (collapse_spaces false value).


(** The three credentials of the settings, the client each one feeds, and
    the setup method and the settings handler that belong to it. *)
Inductive credential : Type := SupabaseUrl | SupabaseKey | OpenaiKey.

Definition credential_of (c : credential) (s : ObsidianAISettings) : jsstring :=
  match c with
  | SupabaseUrl => supabaseUrl s
  | SupabaseKey => supabaseKey s
  | OpenaiKey => openaiKey s
  end.

Definition client_of (c : credential) (w : World) : nullable addr :=
  match c with
  | SupabaseUrl | SupabaseKey => supabaseClient w
  | OpenaiKey => openai w
  end.

Definition setup_of (c : credential) : M unit :=
  match c with
  | SupabaseUrl | SupabaseKey => setupSupabase
  | OpenaiKey => setupOpenai
  end.

Definition onChange_of (c : credential) (value : jsstring) : M unit :=
  match c with
  | SupabaseUrl => onChange_supabaseUrl value
  | SupabaseKey => onChange_supabaseKey value
  | OpenaiKey => onChange_openaiKey value
  end.

(** All the credentials the client of [c] is built from are non-empty. *)
Definition credentials_present (c : credential) (s : ObsidianAISettings) : bool :=
  match c with
  | SupabaseUrl | SupabaseKey =>
      negb (is_empty (supabaseUrl s) || is_empty (supabaseKey s))
  | OpenaiKey => negb (is_empty (openaiKey s))
  end.

(** The object the setup method of [c] constructs. *)
Definition client_object (c : credential) (s : ObsidianAISettings) : object :=
  match c with
  | SupabaseUrl | SupabaseKey =>
      ObjSupabase {| sb_url := supabaseUrl s; sb_key := supabaseKey s;
                     sb_persistSession := false; sb_autoRefreshToken := false |}
  | OpenaiKey => ObjOpenAI {| oa_apiKey := openaiKey s |}
  end.

(** Both commands are unavailable and do nothing at all. *)
Definition disabled (w : World) : Prop :=
  forall checking,
    ai_search_checkCallback checking w = (false, w) /\
    refresh_embedding_checkCallback checking w = (false, w).


(** The guard of the two commands. *)
Definition configured (w : World) : bool :=
  not_null (supabaseClient w) && not_null (openai w).

(** The two places that start an indexing run. *)
Definition start_run (site : origin) : M unit :=
  match site with
  | IndexOnOpen => onLayoutReady_callback
  | RefreshCommand => refresh_embedding_checkCallback false >> ret tt
  end.

Definition status_after (o : promise unit) : string :=
  match o with
  | Fulfilled _ => STATUS_LOADED
  | Rejected _ => STATUS_ERROR
  end.

(** In a list of effects (newest first), every call of [generateEmbeddings]
    comes right after the status bar was set to the indexing text. *)
Fixpoint announced (l : list event) : bool :=
  match l with
  | [] => true
  | EvGenerateEmbeddings _ :: rest =>
      match rest with
      | EvSetText t :: _ => bool_decide (t = STATUS_INDEXING) && announced rest
      | _ => false
      end
  | _ :: rest => announced rest
  end.

(** At most one indexing run is in flight. *)
Definition single_flight (w : World) : Prop := (length (runs w) <= 1)%nat.








(** The run a start puts in flight. *)
Definition new_run (site : origin) (w : World) : Run :=
  {| run_id := nextRun w; run_origin := site;
     run_supabaseClient := supabaseClient w; run_openai := openai w;
     run_excludedDirsList := excludedDirsList (settings w);
     run_publicDirsList := publicDirsList (settings w) |}.

(** A configuration with the three credentials set and indexing on start
    switched on, for the examples. *)
Definition example_settings : ObsidianAISettings :=
  set_supabaseUrl (of_ascii "https://x.supabase.co")
    (set_supabaseKey (of_ascii "service-role-key")
       (set_openaiKey (of_ascii "sk-key")
          (set_indexOnOpen true DEFAULT_SETTINGS))).

(** ** Further vocabulary: executions, persistence, the modal's life cycle *)

(** The settings [loadSettings] builds from the content of the data file. *)
Definition from_data (d : option ObsidianAISettings) : ObsidianAISettings :=
  match d with
  | Some s => s
  | None => DEFAULT_SETTINGS
  end.

(** The three credentials are non-empty. *)
Definition all_credentials_present (s : ObsidianAISettings) : bool :=
  credentials_present SupabaseUrl s && credentials_present OpenaiKey s.

(** The client of [c] is what its setup method makes of the current
    settings: a reference to an object built from them, or null. *)
Definition client_synced (c : credential) (w : World) : Prop :=
  if credentials_present c (settings w) then
    exists a, client_of c w = Val a /\ heap w !! a = Some (client_object c (settings w))
  else client_of c w = Null.



(** Number of commas of a text. *)
Definition commas (s : jsstring) : nat := count_occ N.eq_dec s COMMA.

(** The modal and the document it is opened in: the modal's own fields
    ([this.typedInstance] with the page elements in [pg_dom],
    [this.keyListener]), and the "keydown" listeners of [document].  A
    listener is a function object; [pg_next] numbers the closures created
    so far. *)
Record Page : Type := {
  pg_dom : ModalDom;
  pg_keyListener : option nat;
  pg_listeners : list nat;
  pg_next : nat
}.

(** [onOpen]: a new closure is stored in [this.keyListener] and added to
    the document's listeners. *)
Definition onOpen (p : Page) : Page :=
  {| pg_dom := pg_dom p;
     pg_keyListener := Some (pg_next p);
     pg_listeners := pg_listeners p ++ [pg_next p];
     pg_next := S (pg_next p) |}.

(** [removeEventListener("keydown", f)]: the listener that is the object
    [f] is taken out; an [undefined] argument matches none. *)
Definition removeEventListener (f : option nat) (l : list nat) : list nat :=
  match f with
  | Some id => filter (fun i => negb (Nat.eqb i id)) l
  | None => l
  end.

(** [onClose]: the Typed instance, if any, is destroyed, and
    [this.keyListener] is removed from the document's listeners. *)
Definition onClose (p : Page) : Page :=
  {| pg_dom := {| typedInstance := destroy <$> typedInstance (pg_dom p);
                  answerHTML := answerHTML (pg_dom p);
                  promptInput := promptInput (pg_dom p) |};
     pg_keyListener := pg_keyListener p;
     pg_listeners := removeEventListener (pg_keyListener p) (pg_listeners p);
     pg_next := pg_next p |}.

(** The closures registered on the document were all created before. *)
Definition listeners_known (p : Page) : Prop :=
  Forall (fun i => (i < pg_next p)%nat) (pg_listeners p).

(** A file of the vault. *)
Record TFile : Type := { file_path : jsstring }.

Section Choose.

(** [path.resolve] of Node: a function of the path (and of the working
    directory, fixed during a session). *)
Variable resolve : jsstring -> jsstring.

(** [onChooseSuggestion]: the file handed to [leaf.openFile], if any: the
    first markdown file of the vault whose resolved path is the resolved
    path of the result's document. *)
Definition onChooseSuggestion (files : list TFile) (result : SearchResult) : option TFile :=
  find (fun file => bool_decide (resolve (file_path file) = resolve (sr_document_path result)))
       files.

End Choose.

(** * Properties *)

(** ** Strings *)

Lemma trimStart_head s c : head (trimStart s) = Some c -> is_space c = false.
Proof.
  induction s as [|a s IH]; simpl; [discriminate|].
  destruct (is_space a) eqn:E; [exact IH|].
  simpl. intros [= <-]. exact E.
Qed.

Lemma trimStart_decomp s : exists l, s = l ++ trimStart s /\ all_space l.
Proof.
  induction s as [|a s (l & Hs & Hl)]; simpl.
  - exists []. split; [reflexivity | constructor].
  - destruct (is_space a) eqn:E.
    + exists (a :: l). split; [simpl; congruence | constructor; assumption].
    + exists []. split; [reflexivity | constructor].
Qed.

Lemma trimStart_last s c : last (trimStart s) = Some c -> last s = Some c.
Proof.
  destruct (trimStart_decomp s) as (l & Hs & _). intros H.
  rewrite Hs, last_app, H. reflexivity.
Qed.

Lemma trim_spec s : trimmed_of s (trim s).
Proof.
  unfold trim, trimEnd.
  destruct (trimStart_decomp s) as (l & Hs & Hl).
  destruct (trimStart_decomp (reverse (trimStart s))) as (r & Hr & Hrs).
  set (u := trimStart (reverse (trimStart s))) in *.
  exists l, (reverse r). repeat split.
  - rewrite Hs at 1. f_equal.
    rewrite <- reverse_app, <- Hr, reverse_involutive. reflexivity.
  - exact Hl.
  - unfold all_space. apply Forall_reverse. exact Hrs.
  - intros c Hc. rewrite head_reverse in Hc.
    apply trimStart_last in Hc. rewrite last_reverse in Hc.
    eapply trimStart_head; eassumption.
  - intros c Hc. rewrite last_reverse in Hc.
    eapply trimStart_head; eassumption.
Qed.

Lemma split_nonempty sep s : split sep s <> [].
Proof.
  destruct s as [|c s]; simpl; [discriminate|].
  destruct (c =? sep); [discriminate|].
  destruct (split sep s); discriminate.
Qed.

Lemma split_join sep s : join sep (split sep s) = s.
Proof.
  induction s as [|c s IH]; simpl; [reflexivity|].
  destruct (N.eqb_spec c sep) as [->|Hne].
  - pose proof (split_nonempty sep s) as Hn.
    destruct (split sep s) as [|p ps]; [contradiction|].
    simpl in *. rewrite IH. reflexivity.
  - pose proof (split_nonempty sep s) as Hn.
    destruct (split sep s) as [|p ps]; [contradiction|].
    simpl in *. destruct ps; simpl in *; rewrite <- IH; reflexivity.
Qed.

Lemma split_no_sep sep s : Forall (fun p => sep ∉ p) (split sep s).
Proof.
  induction s as [|c s IH]; simpl.
  - constructor; [apply not_elem_of_nil | constructor].
  - destruct (N.eqb_spec c sep) as [->|Hne].
    + constructor; [apply not_elem_of_nil | exact IH].
    + destruct (split sep s) as [|p ps].
      * constructor; [|constructor].
        intros H. apply list_elem_of_singleton in H. congruence.
      * inversion IH as [|? ? Hp Hps]; subst. constructor; [|exact Hps].
        rewrite elem_of_cons. intros [->|H]; [congruence | contradiction].
Qed.

Lemma split_spec sep s : split_of sep s (split sep s).
Proof.
  split; [apply split_nonempty|]. split; [apply split_join | apply split_no_sep].
Qed.

Lemma map_trim_spec pieces : Forall2 trimmed_of pieces (map trim pieces).
Proof.
  induction pieces; simpl; constructor; [apply trim_spec | assumption].
Qed.

(** The parts between the separators are determined by the string. *)
Lemma split_of_unique sep s pieces : split_of sep s pieces -> pieces = split sep s.
Proof.
  intros (Hne & Hj & Hf). subst s.
  induction pieces as [|p ps IH]; [contradiction|].
  inversion Hf as [|? ? Hp Hps]; subst.
  destruct ps as [|q qs].
  - simpl. clear IH Hne Hf Hps.
    induction p as [|c p IHp]; simpl; [reflexivity|].
    rewrite not_elem_of_cons in Hp. destruct Hp as [Hc Hp].
    destruct (N.eqb_spec c sep); [congruence|].
    rewrite <- (IHp Hp). reflexivity.
  - specialize (IH ltac:(discriminate) Hps).
    change (join sep (p :: q :: qs)) with (p ++ sep :: join sep (q :: qs)).
    generalize dependent (join sep (q :: qs)). intros t IH.
    generalize dependent (q :: qs). intros rest _ _ _ IH.
    induction p as [|c p IHp]; simpl.
    + rewrite N.eqb_refl. rewrite <- IH. reflexivity.
    + rewrite not_elem_of_cons in Hp. destruct Hp as [Hc Hp].
      destruct (N.eqb_spec c sep); [congruence|].
      rewrite <- (IHp Hp). reflexivity.
Qed.

Lemma startsWith_empty path : startsWith path [] = true.
Proof. destruct path; reflexivity. Qed.

Lemma not_space_not_LF c : is_space c = false -> c <> LF.
Proof. intros H ->. discriminate H. Qed.

Lemma replace_in_match s :
  replace_newlines true s = replace_newlines false (trimStart s).
Proof.
  induction s as [|c s IH]; simpl; [reflexivity|].
  destruct (is_space c) eqn:E; [exact IH|].
  simpl. apply not_space_not_LF in E.
  destruct (N.eqb_spec c LF); [contradiction | reflexivity].
Qed.

Lemma trimStart_length s : (length (trimStart s) <= length s)%nat.
Proof.
  induction s as [|c s IH]; simpl; [lia|].
  destruct (is_space c); simpl; lia.
Qed.

Lemma replace_newlines_spec s : newlines_replaced s (replace_newlines false s).
Proof.
  remember (length s) as n eqn:Hn.
  revert s Hn. induction n as [n IH] using lt_wf_ind. intros s Hn.
  destruct s as [|c s]; simpl; [constructor|].
  destruct (N.eqb_spec c LF) as [->|Hne].
  - rewrite replace_in_match.
    destruct (trimStart_decomp s) as (ws & Hs & Hws).
    rewrite Hs at 1. apply nr_fold.
    + exact Hws.
    + intros c. apply trimStart_head.
    + apply (IH (length (trimStart s))); [|reflexivity].
      pose proof (trimStart_length s). simpl in Hn. lia.
  - apply nr_keep; [exact Hne|].
    apply (IH (length s)); [simpl in Hn; lia | reflexivity].
Qed.

Lemma replace_newlines_no_LF b s : LF ∉ replace_newlines b s.
Proof.
  revert b. induction s as [|c s IH]; intros b; simpl; [apply not_elem_of_nil|].
  destruct b.
  - destruct (is_space c) eqn:E; [apply IH|].
    rewrite not_elem_of_cons. split; [|apply IH].
    intros Heq. apply (not_space_not_LF c E). congruence.
  - destruct (N.eqb_spec c LF) as [->|Hne].
    + rewrite not_elem_of_cons. split; [discriminate | apply IH].
    + rewrite not_elem_of_cons. split; [congruence | apply IH].
Qed.

Lemma trimmed_of_elem piece e c : trimmed_of piece e -> c ∈ e -> c ∈ piece.
Proof.
  intros (l & r & -> & _) Hc. rewrite !elem_of_app. auto.
Qed.

Lemma oneLine_no_LF value : LF ∉ oneLine value.
Proof.
  intros H. apply (replace_newlines_no_LF false value).
  eapply trimmed_of_elem; [apply trim_spec | exact H].
Qed.

(** ** The settings tab *)

(** C9: the Excluded Directories and Public Directories handlers store the
    entered text and, as the list, the parts of the text between its commas,
    each without the white space at its ends; the empty text gives the list
    of one empty string, and the empty string is a prefix of every path. *)
Theorem directory_lists_split_and_trimmed (value : jsstring) (w : World) :
  let we := exec_of (onChange_excludedDirs value) w in
  let wp := exec_of (onChange_publicDirs value) w in
  (excludedDirs (settings we) = value /\
   exists pieces, split_of COMMA value pieces /\
                  Forall2 trimmed_of pieces (excludedDirsList (settings we))) /\
  (publicDirs (settings wp) = value /\
   exists pieces, split_of COMMA value pieces /\
                  Forall2 trimmed_of pieces (publicDirsList (settings wp))) /\
  data we = Some (settings we) /\ data wp = Some (settings wp) /\
  excludedDirsList (settings (exec_of (onChange_excludedDirs []) w)) = [[]] /\
  publicDirsList (settings (exec_of (onChange_publicDirs []) w)) = [[]] /\
  (forall path, startsWith path [] = true).
Proof.
  simpl. repeat split; try reflexivity.
  - exists (split COMMA value). split; [apply split_spec | apply map_trim_spec].
  - exists (split COMMA value). split; [apply split_spec | apply map_trim_spec].
  - apply startsWith_empty.
Qed.

(** C10, as amended: the Prompt handler stores and saves the oneLine form of
    the entered text: every line feed with the white space that follows it
    is replaced by one space, every other code unit is kept, and the ends
    are trimmed; the stored prompt holds no line feed. *)
Theorem prompt_stored_oneLine (value : jsstring) (w : World) :
  let w' := exec_of (onChange_prompt value) w in
  prompt (settings w') = oneLine value /\
  (exists t, newlines_replaced value t /\ trimmed_of t (prompt (settings w'))) /\
  (LF ∉ prompt (settings w')) /\
  data w' = Some (settings w').
Proof.
  simpl. repeat split.
  - exists (replace_newlines false value).
    split; [apply replace_newlines_spec | apply trim_spec].
  - apply oneLine_no_LF.
Qed.

(** C10, as claimed, fails: two spaces inside a line are stored as they
    are, where the claimed normalization makes one space of them. *)
Lemma prompt_keeps_inner_spaces :
  let value := of_ascii "a  b" in
  let w' := exec_of (onChange_prompt value) (exec_of onload (initial None)) in
  prompt (settings w') = of_ascii "a  b" /\
  oneLine_as_claimed value = of_ascii "a b" /\
  prompt (settings w') <> oneLine_as_claimed value.
Proof.
  vm_compute. repeat split. discriminate.
Qed.

(** ** The provider clients *)

(** Unfolding of the monad and of the plugin's methods, down to the fields
    of the world. *)
Ltac run_plugin :=
  cbv [exec_of result_of bind ret gets modify when emit setText alloc
       createClient newOpenAIApi setupSupabase setupOpenai
       generateEmbeddings settle in_flight saveSettings update_settings
       onLayoutReady_callback ai_search_checkCallback
       refresh_embedding_checkCallback
       onChange_excludedDirs onChange_publicDirs onChange_prompt
       onChange_indexOnOpen onChange_supabaseUrl onChange_supabaseKey
       onChange_openaiKey step
       with_settings with_supabaseClient with_openai with_status with_heap
       with_data with_effects with_runs with_nextRun with_layoutCallback
       set_excludedDirs set_publicDirs set_prompt set_indexOnOpen
       set_supabaseUrl set_supabaseKey set_openaiKey
       settings supabaseClient openai statusBarItemEl heap data effects runs
       nextRun layoutCallback
       supabaseUrl supabaseKey openaiKey indexOnOpen excludedDirs
       excludedDirsList publicDirs publicDirsList prompt
       fst snd negb andb orb is_empty truthy not_null] in *.

Lemma is_empty_true (s : jsstring) : is_empty s = true <-> s = [].
Proof. destruct s; simpl; split; congruence. Qed.


(** What [setupSupabase] leaves in the plugin's field and on the heap. *)
Lemma setupSupabase_client (w : World) :
  let s := settings w in
  let w' := exec_of setupSupabase w in
  if is_empty (supabaseUrl s) || is_empty (supabaseKey s) then
    supabaseClient w' = Null /\ heap w' = heap w
  else
    let a := fresh (dom (heap w)) in
    supabaseClient w' = Val a /\
    heap w' = <[a := ObjSupabase {| sb_url := supabaseUrl s; sb_key := supabaseKey s;
                                    sb_persistSession := false;
                                    sb_autoRefreshToken := false |}]> (heap w).
Proof.
  destruct w as [s sb oa st h d ev rs n cb]. destruct s as [url key ok i e el p pl pr].
  destruct url, key, oa; run_plugin; split; reflexivity.
Qed.

Lemma setupOpenai_client (w : World) :
  let s := settings w in
  let w' := exec_of setupOpenai w in
  if is_empty (openaiKey s) then
    openai w' = Null /\ heap w' = heap w
  else
    let a := fresh (dom (heap w)) in
    openai w' = Val a /\
    heap w' = <[a := ObjOpenAI {| oa_apiKey := openaiKey s |}]> (heap w).
Proof.
  destruct w as [s sb oa st h d ev rs n cb]. destruct s as [url key ok i e el p pl pr].
  destruct ok, sb; run_plugin; split; reflexivity.
Qed.

(** Neither setup method touches the settings, the saved data, the runs or
    the other client. *)
Lemma setupSupabase_frame (w : World) :
  let w' := exec_of setupSupabase w in
  settings w' = settings w /\ openai w' = openai w /\ data w' = data w /\
  runs w' = runs w /\ nextRun w' = nextRun w /\ layoutCallback w' = layoutCallback w.
Proof.
  destruct w as [s sb oa st h d ev rs n cb]. destruct s as [url key ok i e el p pl pr].
  destruct url, key, oa; run_plugin; repeat split; reflexivity.
Qed.

Lemma setupOpenai_frame (w : World) :
  let w' := exec_of setupOpenai w in
  settings w' = settings w /\ supabaseClient w' = supabaseClient w /\ data w' = data w /\
  runs w' = runs w /\ nextRun w' = nextRun w /\ layoutCallback w' = layoutCallback w.
Proof.
  destruct w as [s sb oa st h d ev rs n cb]. destruct s as [url key ok i e el p pl pr].
  destruct ok, sb; run_plugin; repeat split; reflexivity.
Qed.

(** Each setup method writes the status bar once, from the two clients it
    leaves. *)
Lemma setupSupabase_status (w : World) :
  let w' := exec_of setupSupabase w in
  let t := if truthy (supabaseClient w') && truthy (openai w')
           then STATUS_READY else STATUS_MISSING in
  statusBarItemEl w' = t /\ effects w' = EvSetText t :: effects w.
Proof.
  destruct w as [s sb oa st h d ev rs n cb]. destruct s as [url key ok i e el p pl pr].
  destruct url, key, oa; run_plugin; split; reflexivity.
Qed.

Lemma setupOpenai_status (w : World) :
  let w' := exec_of setupOpenai w in
  let t := if truthy (supabaseClient w') && truthy (openai w')
           then STATUS_READY else STATUS_MISSING in
  statusBarItemEl w' = t /\ effects w' = EvSetText t :: effects w.
Proof.
  destruct w as [s sb oa st h d ev rs n cb]. destruct s as [url key ok i e el p pl pr].
  destruct ok, sb; run_plugin; split; reflexivity.
Qed.


(** A null client switches both commands off. *)
Lemma null_client_disables (w : World) :
  supabaseClient w = Null \/ openai w = Null -> disabled w.
Proof.
  destruct w as [s sb oa st h d ev rs n cb].
  intros H checking. simpl in H.
  destruct sb, oa; split; try reflexivity; destruct H; discriminate.
Qed.




Lemma exec_of_bind {A B} (c : M A) (k : A -> M B) (w : World) :
  exec_of (bind c k) w = exec_of (k (result_of c w)) (exec_of c w).
Proof. unfold exec_of, result_of, bind. destruct (c w). reflexivity. Qed.



(** ** Credential changes *)

Lemma fresh_unused (h : gmap addr object) : h !! fresh (dom h) = None.
Proof. apply not_elem_of_dom, is_fresh. Qed.

Lemma heap_kept (h : gmap addr object) (o o' : object) (a : addr) :
  h !! a = Some o -> <[fresh (dom h) := o']> h !! a = Some o.
Proof.
  intros H. rewrite lookup_insert_ne; [exact H|].
  intros <-. rewrite fresh_unused in H. discriminate.
Qed.

(** The state in which a credential handler calls its setup method. *)
Lemma credential_saved (c : credential) (value : jsstring) (w : World) :
  exists w0,
    exec_of (onChange_of c value) w = exec_of (setup_of c) w0 /\
    credential_of c (settings w0) = value /\
    data w0 = Some (settings w0) /\
    heap w0 = heap w.
Proof.
  destruct w as [s sb oa st h d ev rs n cb]. destruct s as [url key ok i e el p pl pr].
  destruct c; eexists; (split; [reflexivity|]); repeat split; reflexivity.
Qed.

Lemma setup_of_client (c : credential) (w : World) :
  let w' := exec_of (setup_of c) w in
  (if credentials_present c (settings w) then
     client_of c w' = Val (fresh (dom (heap w))) /\
     heap w' = <[fresh (dom (heap w)) := client_object c (settings w)]> (heap w)
   else client_of c w' = Null /\ heap w' = heap w) /\
  settings w' = settings w /\ data w' = data w.
Proof.
  destruct c; simpl.
  - pose proof (setupSupabase_client w) as H. pose proof (setupSupabase_frame w) as F.
    cbv zeta in H, F. destruct (_ || _); simpl; tauto.
  - pose proof (setupSupabase_client w) as H. pose proof (setupSupabase_frame w) as F.
    cbv zeta in H, F. destruct (_ || _); simpl; tauto.
  - pose proof (setupOpenai_client w) as H. pose proof (setupOpenai_frame w) as F.
    cbv zeta in H, F. destruct (is_empty _); simpl; tauto.
Qed.



(** ** Indexing runs *)

Lemma start_run_effect (site : origin) (w : World) :
  configured w = true ->
  let w1 := exec_of (start_run site) w in
  effects w1 = EvGenerateEmbeddings (new_run site w) :: EvSetText STATUS_INDEXING :: effects w /\
  statusBarItemEl w1 = STATUS_INDEXING /\
  runs w1 = runs w ++ [new_run site w] /\
  nextRun w1 = S (nextRun w) /\
  supabaseClient w1 = supabaseClient w /\ openai w1 = openai w /\
  settings w1 = settings w.
Proof.
  destruct w as [s sb oa st h d ev rs n cb]. unfold configured. simpl.
  intros H. destruct site; unfold start_run, new_run; run_plugin;
    rewrite H; repeat split; reflexivity.
Qed.

Lemma in_flight_app (id : nat) (w : World) (l : list Run) (r : Run) :
  runs w = l ++ [r] -> run_id r = id -> in_flight id w = true.
Proof.
  unfold in_flight. intros -> <-. rewrite existsb_app. simpl.
  rewrite Nat.eqb_refl. apply orb_true_iff. right. reflexivity.
Qed.

Lemma settle_effect (id : nat) (o : promise unit) (w : World) :
  in_flight id w = true ->
  let w2 := exec_of (settle id o) w in
  statusBarItemEl w2 = status_after o /\
  effects w2 = EvSetText (status_after o) :: effects w /\
  runs w2 = filter (fun r => negb (Nat.eqb (run_id r) id)) (runs w).
Proof.
  destruct w as [s sb oa st h d ev rs n cb]. unfold in_flight. simpl. intros H.
  unfold settle, in_flight. run_plugin. rewrite H.
  destruct o; repeat split; reflexivity.
Qed.

Lemma settle_not_in_flight (id : nat) (o : promise unit) (w : World) :
  in_flight id w = false -> exec_of (settle id o) w = w.
Proof.
  destruct w as [s sb oa st h d ev rs n cb]. unfold in_flight. simpl. intros H.
  unfold settle, in_flight. run_plugin. rewrite H. reflexivity.
Qed.

Lemma settled_gone (id : nat) (l : list Run) :
  existsb (fun r => Nat.eqb (run_id r) id)
          (filter (fun r => negb (Nat.eqb (run_id r) id)) l) = false.
Proof.
  induction l as [|r l IH]; [reflexivity|].
  rewrite filter_cons. destruct (Nat.eqb (run_id r) id) eqn:E; simpl.
  - exact IH.
  - rewrite E. exact IH.
Qed.

(** What one action adds to the effects. *)
Lemma step_effects (a : action) (w : World) :
  exists new, effects (exec_of (step a) w) = new ++ effects w /\
    (new = [] \/ (exists e, new = [e] /\ forall r, e <> EvGenerateEmbeddings r) \/
     (exists t s, new = [EvSetText t; EvSaveData s]) \/
     (exists r, new = [EvGenerateEmbeddings r; EvSetText STATUS_INDEXING])).
Proof.
  destruct a as [|c checking|id o|v|v|v|v|v|v|v].
  3: { unfold step. destruct (in_flight id w) eqn:E.
       - destruct (settle_effect id o w E) as (_ & -> & _).
         eexists [_]; split; [reflexivity | right; left; eexists; split;
                                            [reflexivity | discriminate]].
       - rewrite settle_not_in_flight by exact E. exists []. split; [reflexivity | auto]. }
  all: destruct w as [s sb oa st h d ev rs n cb];
       destruct s as [url key ok i e el p pl pr].
  - destruct cb; [|exists []; split; [reflexivity | auto]].
    destruct sb, oa; run_plugin;
      solve [ exists []; split; [reflexivity | auto]
            | eexists [_; _]; split; [reflexivity | eauto 10] ].
  - destruct c, checking, sb, oa; run_plugin;
      solve [ exists []; split; [reflexivity | auto]
            | eexists [_]; split; [reflexivity | right; left; eexists; split;
                                                 [reflexivity | discriminate]]
            | eexists [_; _]; split; [reflexivity | eauto 10] ].
  - eexists [_]; split; [reflexivity | right; left; eexists; split;
                                       [reflexivity | discriminate]].
  - eexists [_]; split; [reflexivity | right; left; eexists; split;
                                       [reflexivity | discriminate]].
  - eexists [_]; split; [reflexivity | right; left; eexists; split;
                                       [reflexivity | discriminate]].
  - eexists [_]; split; [reflexivity | right; left; eexists; split;
                                       [reflexivity | discriminate]].
  - destruct v, key, oa; run_plugin; eexists [_; _]; split; try reflexivity; eauto 10.
  - destruct url, v, oa; run_plugin; eexists [_; _]; split; try reflexivity; eauto 10.
  - destruct v, sb; run_plugin; eexists [_; _]; split; try reflexivity; eauto 10.
Qed.

Lemma step_announced (a : action) (w : World) :
  announced (effects w) = true -> announced (effects (exec_of (step a) w)) = true.
Proof.
  intros H. destruct (step_effects a w) as (new & -> & Hn).
  destruct Hn as [->|[(e & -> & He)|[(t & s & ->)|(r & ->)]]]; cbn [app announced].
  - exact H.
  - destruct e; try exact H. destruct (He r). reflexivity.
  - exact H.
  - rewrite bool_decide_eq_true_2 by reflexivity. exact H.
Qed.

Lemma onload_announced (d : option ObsidianAISettings) :
  announced (effects (exec_of onload (initial d))) = true.
Proof.
  unfold onload. rewrite !exec_of_bind.
  set (w0 := exec_of (modify (with_status EmptyString)) (exec_of loadSettings (initial d))).
  assert (E0 : effects w0 = []) by (destruct d; reflexivity).
  set (w1 := exec_of setupSupabase w0).
  set (w2 := exec_of setupOpenai w1).
  destruct (setupSupabase_status w0) as [_ E1]. fold w1 in E1.
  destruct (setupOpenai_status w1) as [_ E2]. fold w2 in E2.
  match goal with |- announced (effects ?w) = true =>
    assert (E : effects w = effects w2) end.
  { generalize w2. clear. intros [s sb oa st h d' ev rs n cb].
    unfold exec_of, result_of, gets, when, modify. simpl.
    destruct (indexOnOpen s && not_null sb && not_null oa); reflexivity. }
  rewrite E, E2, E1, E0. simpl.
  destruct (truthy _ && truthy _), (truthy _ && truthy _); reflexivity.
Qed.

Lemma run_actions_announced (l : list action) (w : World) :
  announced (effects w) = true -> announced (effects (run_actions l w)) = true.
Proof.
  revert w. induction l as [|a l IH]; intros w H; simpl; [exact H|].
  apply IH, step_announced, H.
Qed.

(** C7: a start of an indexing run (the command "Refresh Index", or the
    callback of index-on-open) first sets the status bar to the indexing
    text and then calls [generateEmbeddings]; when that run settles, the
    status bar is set to the loaded text exactly when the promise was
    fulfilled and to the error text exactly when it was rejected; and in
    every execution each call of [generateEmbeddings] follows such a status
    write. *)
Theorem indexing_run_status (site : origin) (o : promise unit) (w : World) :
  configured w = true ->
  let w1 := exec_of (start_run site) w in
  let r := new_run site w in
  effects w1 = EvGenerateEmbeddings r :: EvSetText STATUS_INDEXING :: effects w /\
  statusBarItemEl w1 = STATUS_INDEXING /\
  in_flight (run_id r) w1 = true /\
  (forall w', in_flight (run_id r) w' = true ->
     let w2 := exec_of (settle (run_id r) o) w' in
     statusBarItemEl w2 = status_after o /\
     effects w2 = EvSetText (status_after o) :: effects w' /\
     in_flight (run_id r) w2 = false) /\
  (status_after o = STATUS_LOADED <-> exists v, o = Fulfilled v) /\
  (status_after o = STATUS_ERROR <-> exists e, o = Rejected e) /\
  (forall d l, announced (effects (run_actions l (exec_of onload (initial d)))) = true).
Proof.
  intros Hc w1 r.
  destruct (start_run_effect site w Hc) as (He & Hs & Hr & _).
  fold w1 r in He, Hs, Hr.
  split; [exact He|]. split; [exact Hs|].
  split; [eapply in_flight_app; [exact Hr | reflexivity]|].
  split; [|split; [|split]].
  - intros w' Hw' w2.
    destruct (settle_effect (run_id r) o w' Hw') as (H1 & H2 & H3). fold w2 in H1, H2, H3.
    split; [exact H1|]. split; [exact H2|].
    unfold in_flight. rewrite H3. apply settled_gone.
  - destruct o; simpl; split; eauto; try discriminate. intros [? [=]].
  - destruct o; simpl; split; eauto; try discriminate. intros [? [=]].
  - intros d l. apply run_actions_announced, onload_announced.
Qed.

Lemma indexing_run_status_witness :
  let w := exec_of onload (initial (Some example_settings)) in
  configured w = true /\
  statusBarItemEl (exec_of (start_run RefreshCommand) w) = STATUS_INDEXING.
Proof.
  intros w. split; [reflexivity|].
  exact (proj1 (proj2 (indexing_run_status RefreshCommand (Fulfilled tt) w eq_refl))).
Defined.

Lemma exec_of_then_ret {A} (c : M A) (w : World) :
  exec_of (c >> ret tt) w = exec_of c w.
Proof. unfold exec_of, bind, ret. destruct (c w). reflexivity. Qed.

Lemma refresh_step (w : World) :
  configured w = true ->
  let w' := exec_of (step (ActCommand RefreshEmbedding false)) w in
  runs w' = runs w ++ [new_run RefreshCommand w] /\ configured w' = true.
Proof.
  intros Hc w'.
  destruct (start_run_effect RefreshCommand w Hc) as (_ & _ & Hr & _ & Hsb & Hoa & _).
  split; [exact Hr|]. unfold configured. subst w'.
  change (exec_of (step (ActCommand RefreshEmbedding false)) w)
    with (exec_of (start_run RefreshCommand) w).
  rewrite Hsb, Hoa. exact Hc.
Qed.

(** C3, as amended: the host has no single-flight guard.  A request for a
    full reindex made while both clients are set is answered true and
    starts its run at once, behind whatever runs are in flight: it is
    neither queued nor rejected, and [n] requests in a row put [n] more
    runs in flight. *)
Theorem refresh_starts_run_at_once (w : World) (n : nat) :
  configured w = true ->
  result_of (refresh_embedding_checkCallback false) w = true /\
  runs (exec_of (refresh_embedding_checkCallback false) w)
    = runs w ++ [new_run RefreshCommand w] /\
  head (effects (exec_of (refresh_embedding_checkCallback false) w))
    = Some (EvGenerateEmbeddings (new_run RefreshCommand w)) /\
  length (runs (run_actions (replicate n (ActCommand RefreshEmbedding false)) w))
    = (length (runs w) + n)%nat.
Proof.
  intros Hc.
  destruct (start_run_effect RefreshCommand w Hc) as (He & _ & Hr & _).
  unfold start_run in He, Hr. rewrite exec_of_then_ret in He, Hr.
  split.
  { destruct w as [s sb oa st h d ev rs k cb]. unfold configured in Hc. simpl in Hc.
    unfold result_of. run_plugin. rewrite Hc. reflexivity. }
  split; [exact Hr|]. split; [rewrite He; reflexivity|].
  clear He Hr. revert w Hc. induction n as [|n IH]; intros w Hc.
  - simpl. lia.
  - cbn [replicate run_actions].
    destruct (refresh_step w Hc) as [Hr Hc'].
    rewrite (IH _ Hc'), Hr, length_app. simpl. lia.
Qed.

Lemma refresh_starts_run_at_once_witness :
  let w := exec_of onload (initial (Some example_settings)) in
  configured w = true /\
  length (runs (run_actions (replicate 3 (ActCommand RefreshEmbedding false)) w)) = 3%nat.
Proof.
  intros w. split; [reflexivity|].
  exact (proj2 (proj2 (proj2 (refresh_starts_run_at_once w 3 eq_refl)))).
Defined.

(** C3, as claimed, fails: with index-on-open, the run started when the
    layout is ready and a run requested by the command are in flight
    together. *)
Lemma two_runs_in_flight :
  let w := run_actions [ActLayoutReady; ActCommand RefreshEmbedding false]
             (exec_of onload (initial (Some example_settings))) in
  map run_origin (runs w) = [IndexOnOpen; RefreshCommand] /\ ~ single_flight w.
Proof.
  split; [vm_compute; reflexivity|].
  unfold single_flight. vm_compute. lia.
Qed.

(** ** The search modal *)

(** C4: when the call of [generativeSearch] made by the key listener is
    fulfilled with null or undefined, the answer box is given the text
    "No answer" and the listener's promise does not reject. *)
Theorem no_answer_sentinel
    (generativeSearch : gmap addr object -> nullable addr -> nullable addr ->
                        jsstring -> jsstring -> promise (nullable jsstring))
    (h : gmap addr object) (m : AISearchModal) (ev : KeyboardEvent) (d : ModalDom)
    (answer : nullable jsstring) :
  shiftKey ev = true ->
  key ev = of_ascii "Enter" ->
  generativeSearch h (m_supabaseClient m) (m_openai m) (promptInput d) (m_prompt m)
    = Fulfilled answer ->
  answer = Null \/ answer = Undefined ->
  let out := keyListener generativeSearch h m ev d in
  shown out.1 = NO_ANSWER /\
  typedInstance out.1 = Some {| strings := [NO_ANSWER]; typeSpeed := 50;
                                showCursor := false; destroyed := false |} /\
  out.2 = None.
Proof.
  intros Hs Hk Hg Ha. unfold keyListener.
  rewrite Hs, bool_decide_eq_true_2 by exact Hk. cbn [andb promptInput].
  rewrite Hg. destruct Ha as [-> | ->]; repeat split; reflexivity.
Qed.

Lemma no_answer_sentinel_witness :
  let gs := fun (_ : gmap addr object) (_ _ : nullable addr) (_ _ : jsstring) =>
              Fulfilled (@Undefined jsstring) in
  let m := {| m_supabaseClient := Val O; m_openai := Val (S O); m_prompt := [] |} in
  let ev := {| shiftKey := true; key := of_ascii "Enter" |} in
  let d := {| typedInstance := None; answerHTML := []; promptInput := of_ascii "why?" |} in
  shown (keyListener gs ∅ m ev d).1 = NO_ANSWER.
Proof.
  intros gs m ev d.
  exact (proj1 (no_answer_sentinel gs ∅ m ev d Undefined eq_refl eq_refl eq_refl
                  (or_intror eq_refl))).
Defined.

(** A string answer is shown as it is, the empty one too; a rejection
    leaves the box at "Thinking..." and comes out of the listener. *)
Lemma answer_passed_on
    (generativeSearch : gmap addr object -> nullable addr -> nullable addr ->
                        jsstring -> jsstring -> promise (nullable jsstring))
    (h : gmap addr object) (m : AISearchModal) (d : ModalDom) :
  let ev := {| shiftKey := true; key := of_ascii "Enter" |} in
  match generativeSearch h (m_supabaseClient m) (m_openai m) (promptInput d) (m_prompt m) with
  | Fulfilled (Val text) => shown (keyListener generativeSearch h m ev d).1 = text
  | Fulfilled _ => shown (keyListener generativeSearch h m ev d).1 = NO_ANSWER
  | Rejected reason =>
      (keyListener generativeSearch h m ev d).2 = Some reason /\
      shown (keyListener generativeSearch h m ev d).1 = of_ascii "Thinking..."
  end.
Proof.
  intros ev. unfold keyListener. cbn [shiftKey key ev andb promptInput].
  rewrite bool_decide_eq_true_2 by reflexivity.
  destruct (generativeSearch _ _ _ _ _) as [[| |text]|reason]; cbn; auto.
  split; [reflexivity|]. destruct (typedInstance d); reflexivity.
Qed.

(** ** Public directories and search *)










(** ** The indexer *)

Section ReindexProperties.

Import Indexer.

Variable vector : Type.
Variable hash : jsstring -> N.
Variable chunk : jsstring -> nat -> list jsstring.
Variable maxTokens : nat.
Variable embed : list jsstring -> option (list vector).

Local Abbreviation index_document := (index_document vector hash chunk maxTokens embed).
Local Abbreviation reindex := (reindex vector hash chunk maxTokens embed).
Local Abbreviation up_to_date := (up_to_date vector hash).

Lemma index_document_failed (pub : list jsstring) (acc : Outcome vector) (d : Document) :
  (failed (summary acc) <= failed (summary (index_document pub acc d)))%nat.
Proof.
  unfold Indexer.index_document, Indexer.reindex_document.
  destruct (store acc !! doc_path d) as [sd|];
    [destruct (st_hash sd =? hash (doc_content d))|];
    destruct (chunk (doc_content d) maxTokens); try destruct (embed _);
    simpl; try destruct acc as [? [] ?]; simpl; lia.
Qed.

Lemma fold_index_failed (pub : list jsstring) (l : list Document) (acc : Outcome vector) :
  (failed (summary acc) <= failed (summary (fold_left (index_document pub) l acc)))%nat.
Proof.
  revert acc. induction l as [|d l IH]; intros acc; simpl; [lia|].
  pose proof (index_document_failed pub acc d). pose proof (IH (index_document pub acc d)). lia.
Qed.

Lemma index_document_other (pub : list jsstring) (acc : Outcome vector) (d : Document)
    (p : jsstring) :
  p <> doc_path d -> store (index_document pub acc d) !! p = store acc !! p.
Proof.
  intros Hp. unfold Indexer.index_document, Indexer.reindex_document.
  destruct (store acc !! doc_path d) as [sd|];
    [destruct (st_hash sd =? hash (doc_content d))|];
    destruct (chunk (doc_content d) maxTokens); try destruct (embed _);
    simpl; try reflexivity; apply lookup_insert_ne; congruence.
Qed.

Lemma fold_index_other (pub : list jsstring) (l : list Document) (acc : Outcome vector)
    (p : jsstring) :
  p ∉ doc_path <$> l ->
  store (fold_left (index_document pub) l acc) !! p = store acc !! p.
Proof.
  revert acc. induction l as [|d l IH]; intros acc Hp; simpl; [reflexivity|].
  rewrite fmap_cons, not_elem_of_cons in Hp. destruct Hp as [Hd Hl].
  rewrite IH by exact Hl. apply index_document_other, Hd.
Qed.

Lemma index_document_clean (pub : list jsstring) (acc : Outcome vector) (d : Document) :
  failed (summary (index_document pub acc d)) = failed (summary acc) ->
  up_to_date (store (index_document pub acc d)) d.
Proof.
  unfold Indexer.up_to_date, Indexer.index_document, Indexer.reindex_document.
  destruct (store acc !! doc_path d) as [sd|] eqn:E;
    [destruct (N.eqb_spec (st_hash sd) (hash (doc_content d)))|];
    try (intros _; exists sd; split; assumption);
    destruct (chunk (doc_content d) maxTokens); try destruct (embed _);
    simpl; intros H;
    try (eexists; split; [apply lookup_insert_eq | reflexivity]);
    destruct acc as [? [] ?]; simpl in H; lia.
Qed.

Lemma fold_index_clean (pub : list jsstring) (l : list Document) (acc : Outcome vector) :
  NoDup (doc_path <$> l) ->
  failed (summary (fold_left (index_document pub) l acc)) = failed (summary acc) ->
  forall d, d ∈ l -> up_to_date (store (fold_left (index_document pub) l acc)) d.
Proof.
  revert acc. induction l as [|d l IH]; intros acc Hnd Hf d' Hd'; simpl in *.
  - apply elem_of_nil in Hd'. contradiction.
  - apply NoDup_cons in Hnd. destruct Hnd as [Hd Hnd].
    pose proof (index_document_failed pub acc d) as H1.
    pose proof (fold_index_failed pub l (index_document pub acc d)) as H2.
    apply elem_of_cons in Hd'. destruct Hd' as [->|Hd'].
    + destruct (index_document_clean pub acc d ltac:(lia)) as (sd & Hsd & Hh).
      exists sd. split; [|exact Hh]. rewrite fold_index_other by exact Hd. exact Hsd.
    + apply IH; [exact Hnd | lia | exact Hd'].
Qed.

Lemma fold_index_skip (pub : list jsstring) (l : list Document) (acc : Outcome vector) :
  (forall d, d ∈ l -> up_to_date (store acc) d) ->
  fold_left (index_document pub) l acc = acc.
Proof.
  induction l as [|d l IH]; intros H; simpl; [reflexivity|].
  assert (Hd : index_document pub acc d = acc).
  { destruct (H d) as (sd & Hsd & Hh); [apply elem_of_cons; auto|].
    unfold Indexer.index_document. rewrite Hsd, Hh, N.eqb_refl. reflexivity. }
  rewrite Hd. apply IH. intros d' Hd'. apply H, elem_of_cons. auto.
Qed.

(** C2, as amended: after a run of the indexer that recorded no failure, a
    second run on the same documents with the same excluded paths makes no
    call of the Embedding Client, reports zero created, updated, deleted
    and failed, and leaves the Vector Store as it is. *)
Theorem reindex_idempotent_after_clean_run
    (excluded public public' : list jsstring) (source : list Document)
    (st : gmap jsstring (Stored vector)) :
  NoDup (doc_path <$> source) ->
  failed (summary (reindex excluded public source st)) = O ->
  let r2 := reindex excluded public' source (store (reindex excluded public source st)) in
  embedCalls r2 = O /\
  summary r2 = {| created := O; updated := O; deleted := O; failed := O |} /\
  store r2 = store (reindex excluded public source st).
Proof.
  intros Hnd Hf. unfold Indexer.reindex in *.
  set (cands := filter (fun d => matches excluded (doc_path d) = false) source) in *.
  set (paths := doc_path <$> cands) in *.
  set (init := {| store := st;
                  summary := {| created := O; updated := O; deleted := O; failed := O |};
                  embedCalls := O |}) in *.
  set (acc1 := fold_left (index_document public) cands init) in *.
  cbn [store summary embedCalls] in *.
  assert (Hnd' : NoDup paths).
  { eapply sublist_NoDup; [exact Hnd|]. apply fmap_sublist, sublist_filter. }
  assert (Hf1 : failed (summary acc1) = O).
  { destruct (summary acc1); exact Hf. }
  assert (Hup : forall d, d ∈ cands ->
            up_to_date (filter (fun kv : jsstring * Stored vector => kv.1 ∈ paths)
                               (store acc1)) d).
  { intros d Hd.
    destruct (fold_index_clean public cands init Hnd' Hf1 d Hd) as (sd & Hsd & Hh).
    exists sd. split; [|exact Hh]. apply map_lookup_filter_Some.
    split; [exact Hsd|]. simpl. apply list_elem_of_fmap_2, Hd. }
  rewrite fold_index_skip by exact Hup. cbn [store summary embedCalls].
  assert (Hgone : filter (fun kv : jsstring * Stored vector => kv.1 ∉ paths)
                    (filter (fun kv : jsstring * Stored vector => kv.1 ∈ paths)
                            (store acc1)) = ∅).
  { apply map_empty. intros p. apply map_lookup_filter_None_2.
    destruct (filter _ (store acc1) !! p) as [sd|] eqn:E; [right | left; reflexivity].
    intros x [= <-]. apply map_lookup_filter_Some in E. destruct E as [_ E]. auto. }
  rewrite Hgone, map_size_empty. split; [reflexivity|]. split; [reflexivity|].
  apply map_filter_id. intros p x Hx. apply map_lookup_filter_Some in Hx. apply Hx.
Qed.

End ReindexProperties.

Lemma reindex_idempotent_after_clean_run_witness :
  let hash := fun s : jsstring => N.of_nat (length s) in
  let chunk := fun (t : jsstring) (_ : nat) => [t] in
  let embed := fun l : list jsstring => Some (map (fun t => N.of_nat (length t)) l) in
  let source := [ {| Indexer.doc_path := of_ascii "notes/a.md";
                     Indexer.doc_content := of_ascii "Capacitors store charge" |};
                  {| Indexer.doc_path := of_ascii "private/c.md";
                     Indexer.doc_content := of_ascii "secret" |} ] in
  let excluded := [of_ascii "private/"] in
  let r1 := Indexer.reindex N hash chunk 8 embed excluded [] source ∅ in
  NoDup (Indexer.doc_path <$> source) /\
  Indexer.summary r1 = {| Indexer.created := 1; Indexer.updated := 0;
                          Indexer.deleted := 0; Indexer.failed := 0 |} /\
  Indexer.embedCalls r1 = 1%nat /\
  Indexer.embedCalls
    (Indexer.reindex N hash chunk 8 embed excluded [of_ascii "notes/"] source
       (Indexer.store r1)) = O.
Proof.
  intros hash chunk embed source excluded r1.
  assert (Hnd : NoDup (Indexer.doc_path <$> source)).
  { apply (bool_decide_unpack _). vm_compute. exact I. }
  split; [exact Hnd|]. split; [vm_compute; reflexivity|].
  split; [vm_compute; reflexivity|].
  exact (proj1 (reindex_idempotent_after_clean_run N hash chunk 8%nat embed excluded []
                  [of_ascii "notes/"] source ∅ Hnd eq_refl)).
Defined.

(** C2, as claimed, fails: a document the Embedding Client refuses is not
    recorded by the first run, so the second run, with nothing changed,
    calls the Embedding Client for it again. *)
Lemma reindex_retries_failed_document :
  let hash := fun s : jsstring => N.of_nat (length s) in
  let chunk := fun (t : jsstring) (_ : nat) => [t] in
  let embed := fun _ : list jsstring => @None (list N) in
  let source := [ {| Indexer.doc_path := of_ascii "notes/a.md";
                     Indexer.doc_content := of_ascii "Capacitors store charge" |} ] in
  let r1 := Indexer.reindex N hash chunk 8 embed [] [] source ∅ in
  let r2 := Indexer.reindex N hash chunk 8 embed [] [] source (Indexer.store r1) in
  NoDup (Indexer.doc_path <$> source) /\
  Indexer.summary r1 = {| Indexer.created := 0; Indexer.updated := 0;
                          Indexer.deleted := 0; Indexer.failed := 1 |} /\
  Indexer.embedCalls r2 = 1%nat /\
  Indexer.embedCalls r2 <> O.
Proof.
  intros hash chunk embed source r1 r2.
  split; [apply (bool_decide_unpack _); vm_compute; exact I|].
  split; [vm_compute; reflexivity|].
  split; [vm_compute; reflexivity | vm_compute; discriminate].
Qed.

(** ** Examples *)

Example default_prompt_one_line :
  prompt DEFAULT_SETTINGS =
    of_ascii "Your name is Obsidian, you are a 22-year-old university student who studies Electronics and Electrical Engineering at University College London. Given the following sections from your notes, answer the question with the provided information. If you are unsure, and the notes don't include relevant information, you may also say "
    ++ [34] ++ of_ascii "Sorry, I don't know the answer to this question :(" ++ [34].
Proof. vm_compute. reflexivity. Qed.

Example onload_without_data :
  let w := exec_of onload (initial None) in
  supabaseClient w = Null /\ openai w = Null /\
  statusBarItemEl w = STATUS_MISSING /\
  effects w = [EvSetText STATUS_MISSING; EvSetText STATUS_MISSING] /\
  layoutCallback w = false.
Proof. vm_compute. repeat split. Qed.

Example onload_configured :
  let w := exec_of onload (initial (Some example_settings)) in
  supabaseClient w = Val O /\ openai w = Val (S O) /\
  statusBarItemEl w = STATUS_READY /\
  effects w = [EvSetText STATUS_READY; EvSetText STATUS_MISSING] /\
  layoutCallback w = true.
Proof. vm_compute. repeat split. Qed.

Example split_trim_example :
  map trim (split COMMA (of_ascii " a , b,,c "))
    = [of_ascii "a"; of_ascii "b"; []; of_ascii "c"].
Proof. vm_compute. reflexivity. Qed.

Example oneLine_example :
  oneLine ([SPACE] ++ of_ascii "a  " ++ [LF; LF; 9] ++ of_ascii "b" ++ [13; LF])
    = of_ascii "a   b".
Proof. vm_compute. reflexivity. Qed.

Example oneLine_keeps_carriage_return :
  oneLine (of_ascii "a" ++ [13; LF] ++ of_ascii "b") = of_ascii "a" ++ [13; SPACE] ++ of_ascii "b".
Proof. vm_compute. reflexivity. Qed.

(** * Further properties of the plugin *)

(** ** Executions *)

Lemma reachable_ind (P : World -> Prop) :
  (forall d, P (exec_of onload (initial d))) ->
  (forall a w, P w -> P (exec_of (step a) w)) ->
  forall d l, P (run_actions l (exec_of onload (initial d))).
Proof.
  intros H0 Hs d l. generalize (H0 d). generalize (exec_of onload (initial d)).
  induction l as [|a l IH]; intros w Hw; simpl; [exact Hw|].
  apply IH, Hs, Hw.
Qed.

(** The state in which a handler of the settings tab has stored and saved
    its change. *)
Lemma stored_and_saved (f : ObsidianAISettings -> ObsidianAISettings) (w : World) :
  let w0 := exec_of saveSettings (exec_of (update_settings f) w) in
  settings w0 = f (settings w) /\ data w0 = Some (f (settings w)) /\
  effects w0 = EvSaveData (f (settings w)) :: effects w /\
  supabaseClient w0 = supabaseClient w /\ openai w0 = openai w /\ heap w0 = heap w /\
  statusBarItemEl w0 = statusBarItemEl w /\
  runs w0 = runs w /\ nextRun w0 = nextRun w /\ layoutCallback w0 = layoutCallback w.
Proof. destruct w. repeat split. Qed.


Lemma credential_handler (f : ObsidianAISettings -> ObsidianAISettings) (setup : M unit)
    (w : World) :
  exec_of (update_settings f >> saveSettings >> setup) w
  = exec_of setup (exec_of saveSettings (exec_of (update_settings f) w)).
Proof. rewrite exec_of_bind, exec_of_bind. reflexivity. Qed.

(** What is left alone by the actions that are no credential change. *)
Lemma other_actions_frame (a : action) (w : World) :
  match a with
  | ActSupabaseUrl _ | ActSupabaseKey _ | ActOpenaiKey _ => True
  | _ =>
      let w' := exec_of (step a) w in
      supabaseUrl (settings w') = supabaseUrl (settings w) /\
      supabaseKey (settings w') = supabaseKey (settings w) /\
      openaiKey (settings w') = openaiKey (settings w) /\
      supabaseClient w' = supabaseClient w /\ openai w' = openai w /\
      heap w' = heap w
  end.
Proof.
  destruct a as [|c checking|id o|v|v|v|v|v|v|v]; try exact I.
  - destruct w as [s sb oa st h d ev rs n cb].
    destruct cb, sb, oa; repeat split.
  - destruct w as [s sb oa st h d ev rs n cb].
    destruct c, checking, sb, oa; repeat split.
  - cbv zeta. unfold step. destruct (in_flight id w) eqn:E.
    + destruct w as [s sb oa st h d ev rs n cb]. unfold in_flight in E. simpl in E.
      unfold settle, in_flight. run_plugin. rewrite E. destruct o; repeat split.
    + rewrite settle_not_in_flight by exact E. repeat split.
  - destruct w as [s sb oa st h d ev rs n cb]. repeat split.
  - destruct w as [s sb oa st h d ev rs n cb]. repeat split.
  - destruct w as [s sb oa st h d ev rs n cb]. repeat split.
  - destruct w as [s sb oa st h d ev rs n cb]. repeat split.
Qed.

(** ** The clients follow the credentials *)

Lemma client_synced_transfer (c : credential) (w w' : World) :
  credentials_present c (settings w') = credentials_present c (settings w) ->
  client_object c (settings w') = client_object c (settings w) ->
  client_of c w' = client_of c w ->
  (forall x o, heap w !! x = Some o -> heap w' !! x = Some o) ->
  client_synced c w -> client_synced c w'.
Proof.
  unfold client_synced. intros -> -> -> Hh.
  destruct (credentials_present c (settings w)); [|auto].
  intros (a & Ha & Ho). exists a. auto.
Qed.

Lemma setup_of_synced (c : credential) (w : World) :
  client_synced c (exec_of (setup_of c) w).
Proof.
  unfold client_synced.
  destruct (setup_of_client c w) as (H & -> & _).
  destruct (credentials_present c (settings w)); destruct H as [-> Hh]; [|reflexivity].
  rewrite Hh. eexists. split; [reflexivity | apply lookup_insert_eq].
Qed.

Lemma setup_of_heap (c : credential) (w : World) (x : addr) (o : object) :
  heap w !! x = Some o -> heap (exec_of (setup_of c) w) !! x = Some o.
Proof.
  destruct (setup_of_client c w) as (H & _).
  destruct (credentials_present c (settings w)); destruct H as [_ ->];
    [apply heap_kept | auto].
Qed.

(** Each setup method keeps the client of the other one in step with the
    settings. *)
Lemma setupSupabase_keeps_openai (w : World) :
  client_synced OpenaiKey w -> client_synced OpenaiKey (exec_of setupSupabase w).
Proof.
  destruct (setupSupabase_frame w) as (Hs & Ho & _).
  apply client_synced_transfer; simpl; rewrite ?Hs; auto.
  intros x o. apply (setup_of_heap SupabaseUrl).
Qed.

Lemma setupOpenai_keeps_supabase (w : World) :
  client_synced SupabaseUrl w -> client_synced SupabaseUrl (exec_of setupOpenai w).
Proof.
  destruct (setupOpenai_frame w) as (Hs & Ho & _).
  apply client_synced_transfer; simpl; rewrite ?Hs; auto.
  intros x o. apply (setup_of_heap OpenaiKey).
Qed.

Lemma step_synced (a : action) (w : World) :
  client_synced SupabaseUrl w /\ client_synced OpenaiKey w ->
  client_synced SupabaseUrl (exec_of (step a) w) /\
  client_synced OpenaiKey (exec_of (step a) w).
Proof.
  intros [Hsb Hoa].
  pose proof (other_actions_frame a w) as F.
  destruct a as [|c checking|id o|v|v|v|v|v|v|v];
    try (cbv zeta in F; destruct F as (Hu & Hk & Ho & Hcs & Hco & Hh); split;
         [ apply (client_synced_transfer SupabaseUrl w);
             cbn [credentials_present client_object client_of];
             rewrite ?Hu, ?Hk, ?Hh; auto
         | apply (client_synced_transfer OpenaiKey w);
             cbn [credentials_present client_object client_of];
             rewrite ?Ho, ?Hh; auto ]).
  - unfold step, onChange_supabaseUrl. rewrite credential_handler.
    destruct (stored_and_saved (set_supabaseUrl v) w) as (Hs & _ & _ & Hcs & Hco & Hh & _).
    split; [apply (setup_of_synced SupabaseUrl)|].
    apply setupSupabase_keeps_openai.
    apply (client_synced_transfer OpenaiKey w); rewrite ?Hs, ?Hh; auto.
  - unfold step, onChange_supabaseKey. rewrite credential_handler.
    destruct (stored_and_saved (set_supabaseKey v) w) as (Hs & _ & _ & Hcs & Hco & Hh & _).
    split; [apply (setup_of_synced SupabaseUrl)|].
    apply setupSupabase_keeps_openai.
    apply (client_synced_transfer OpenaiKey w); rewrite ?Hs, ?Hh; auto.
  - unfold step, onChange_openaiKey. rewrite credential_handler.
    destruct (stored_and_saved (set_openaiKey v) w) as (Hs & _ & _ & Hcs & Hco & Hh & _).
    split; [|apply (setup_of_synced OpenaiKey)].
    apply setupOpenai_keeps_supabase.
    apply (client_synced_transfer SupabaseUrl w); rewrite ?Hs, ?Hh; auto.
Qed.

(** The end of [onload]: the registration of the index-on-open callback. *)
Lemma registration_frame (w : World) :
  let w' := exec_of (let* s := gets settings in
                     let* sb := gets supabaseClient in
                     let* oa := gets openai in
                     when (indexOnOpen s && not_null sb && not_null oa)
                          (modify (with_layoutCallback true))) w in
  settings w' = settings w /\ data w' = data w /\
  supabaseClient w' = supabaseClient w /\ openai w' = openai w /\ heap w' = heap w /\
  statusBarItemEl w' = statusBarItemEl w /\ effects w' = effects w /\
  runs w' = runs w /\ nextRun w' = nextRun w /\
  layoutCallback w' =
    (indexOnOpen (settings w) && not_null (supabaseClient w) && not_null (openai w))
    || layoutCallback w.
Proof.
  destruct w as [s sb oa st h d ev rs n cb]. cbv zeta.
  unfold exec_of, bind, gets, when, modify, ret. simpl.
  destruct (indexOnOpen s && not_null sb && not_null oa); repeat split.
Qed.

Lemma onload_steps (d : option ObsidianAISettings) :
  exec_of onload (initial d) =
  exec_of (let* s := gets settings in
           let* sb := gets supabaseClient in
           let* oa := gets openai in
           when (indexOnOpen s && not_null sb && not_null oa)
                (modify (with_layoutCallback true)))
    (exec_of setupOpenai
       (exec_of setupSupabase
          (exec_of (modify (with_status EmptyString))
             (exec_of loadSettings (initial d))))).
Proof. unfold onload. rewrite !exec_of_bind. reflexivity. Qed.

(** The plugin right after [onload]. *)
Lemma onload_shape (d : option ObsidianAISettings) :
  let w := exec_of onload (initial d) in
  settings w = from_data d /\ data w = d /\ runs w = [] /\ nextRun w = O /\
  client_synced SupabaseUrl w /\ client_synced OpenaiKey w /\
  layoutCallback w =
    indexOnOpen (settings w) && not_null (supabaseClient w) && not_null (openai w).
Proof.
  cbv zeta. rewrite onload_steps.
  set (w0 := exec_of (modify (with_status EmptyString)) (exec_of loadSettings (initial d))).
  assert (H0 : settings w0 = from_data d /\ data w0 = d /\ runs w0 = [] /\
               nextRun w0 = O /\ layoutCallback w0 = false)
    by (destruct d; repeat split).
  destruct H0 as (Hs0 & Hd0 & Hr0 & Hn0 & Hc0).
  set (w1 := exec_of setupSupabase w0).
  destruct (setupSupabase_frame w0) as (Hs1 & _ & Hd1 & Hr1 & Hn1 & Hc1). fold w1 in Hs1, Hd1, Hr1, Hn1, Hc1.
  set (w2 := exec_of setupOpenai w1).
  destruct (setupOpenai_frame w1) as (Hs2 & _ & Hd2 & Hr2 & Hn2 & Hc2). fold w2 in Hs2, Hd2, Hr2, Hn2, Hc2.
  assert (Hsb : client_synced SupabaseUrl w2)
    by (apply setupOpenai_keeps_supabase, (setup_of_synced SupabaseUrl)).
  assert (Hoa : client_synced OpenaiKey w2) by apply (setup_of_synced OpenaiKey).
  destruct (registration_frame w2) as (Hs & Hd & Hcs & Hco & Hh & _ & _ & Hr & Hn & Hc).
  cbv zeta in Hs, Hd, Hcs, Hco, Hh, Hr, Hn, Hc.
  rewrite Hs, Hd, Hr, Hn, Hc, Hcs, Hco.
  repeat split; try congruence.
  - eapply client_synced_transfer; [| | | |exact Hsb]; rewrite ?Hs, ?Hh; auto.
  - eapply client_synced_transfer; [| | | |exact Hoa]; rewrite ?Hs, ?Hh; auto.
  - rewrite Hc2, Hc1, Hc0. apply orb_false_r.
Qed.

Lemma reachable_synced (d : option ObsidianAISettings) (l : list action) :
  let w := run_actions l (exec_of onload (initial d)) in
  client_synced SupabaseUrl w /\ client_synced OpenaiKey w.
Proof.
  apply (reachable_ind
           (fun w => client_synced SupabaseUrl w /\ client_synced OpenaiKey w)).
  - intros d'. destruct (onload_shape d') as (_ & _ & _ & _ & H1 & H2 & _). auto.
  - intros a w. apply step_synced.
Qed.


Lemma synced_configured (w : World) :
  client_synced SupabaseUrl w -> client_synced OpenaiKey w ->
  configured w = all_credentials_present (settings w).
Proof.
  unfold client_synced, configured, all_credentials_present. intros H1 H2.
  destruct (credentials_present SupabaseUrl (settings w)),
           (credentials_present OpenaiKey (settings w)); simpl in *;
    repeat match goal with H : exists _, _ |- _ => destruct H as (? & ? & ?) end;
    repeat match goal with H : _ = _ |- _ => rewrite H end; reflexivity.
Qed.



(** ** Persistence *)




(** ** Loading *)




(** ** The commands *)

(** X5: asked with [checking] set, a command changes nothing and answers
    what it answers when it executes; executing an unavailable command
    changes nothing either, and executing "AI Search" when available opens
    one modal on the current clients and prompt. *)
Theorem probe_agrees_with_execution (w : World) :
  exec_of (ai_search_checkCallback true) w = w /\
  exec_of (refresh_embedding_checkCallback true) w = w /\
  result_of (ai_search_checkCallback true) w
    = result_of (ai_search_checkCallback false) w /\
  result_of (refresh_embedding_checkCallback true) w
    = result_of (refresh_embedding_checkCallback false) w /\
  (if result_of (ai_search_checkCallback true) w then
     effects (exec_of (ai_search_checkCallback false) w)
       = EvOpenModal {| m_supabaseClient := supabaseClient w; m_openai := openai w;
                        m_prompt := prompt (settings w) |} :: effects w /\
     runs (exec_of (ai_search_checkCallback false) w) = runs w
   else
     exec_of (ai_search_checkCallback false) w = w /\
     exec_of (refresh_embedding_checkCallback false) w = w).
Proof.
  destruct w as [s sb oa st h d ev rs n cb].
  destruct sb, oa; repeat split.
Qed.

(** ** Settings changes and runs *)

Lemma setup_of_frame (c : credential) (w : World) :
  let w' := exec_of (setup_of c) w in
  settings w' = settings w /\ data w' = data w /\
  runs w' = runs w /\ nextRun w' = nextRun w /\ layoutCallback w' = layoutCallback w /\
  exists t, effects w' = [EvSetText t] ++ effects w.
Proof.
  destruct c; simpl.
  - destruct (setupSupabase_frame w) as (? & _ & ? & ? & ? & ?).
    destruct (setupSupabase_status w) as [_ E]. repeat split; eauto.
  - destruct (setupSupabase_frame w) as (? & _ & ? & ? & ? & ?).
    destruct (setupSupabase_status w) as [_ E]. repeat split; eauto.
  - destruct (setupOpenai_frame w) as (? & _ & ? & ? & ? & ?).
    destruct (setupOpenai_status w) as [_ E]. repeat split; eauto.
Qed.

Lemma credential_change_frame (c : credential) (v : jsstring) (w : World) :
  let w' := exec_of (onChange_of c v) w in
  runs w' = runs w /\ nextRun w' = nextRun w /\ layoutCallback w' = layoutCallback w /\
  exists t s, effects w' = [EvSetText t; EvSaveData s] ++ effects w.
Proof.
  cbv zeta.
  assert (H : exists f, exec_of (onChange_of c v) w
                = exec_of (setup_of c)
                    (exec_of saveSettings (exec_of (update_settings f) w))).
  { destruct c; eexists; apply credential_handler. }
  destruct H as (f & ->).
  destruct (stored_and_saved f w) as (_ & _ & He & _ & _ & _ & _ & Hr & Hn & Hc).
  destruct (setup_of_frame c (exec_of saveSettings (exec_of (update_settings f) w)))
    as (_ & _ & -> & -> & -> & t & ->).
  rewrite Hr, Hn, Hc, He. repeat split. eauto.
Qed.



Lemma setup_of_missing (c : credential) (w : World) :
  credential_of c (settings w) = [] ->
  client_of c (exec_of (setup_of c) w) = Null /\
  statusBarItemEl (exec_of (setup_of c) w) = STATUS_MISSING.
Proof.
  intros Hc.
  assert (Hp : credentials_present c (settings w) = false).
  { destruct c; simpl in *; rewrite Hc; simpl; rewrite ?orb_true_r; reflexivity. }
  destruct (setup_of_client c w) as (H & _). rewrite Hp in H. destruct H as [Hn _].
  split; [exact Hn|].
  destruct c; simpl in *.
  - destruct (setupSupabase_status w) as [T _]. rewrite Hn in T. exact T.
  - destruct (setupSupabase_status w) as [T _]. rewrite Hn in T. exact T.
  - destruct (setupOpenai_status w) as [T _]. rewrite Hn, andb_false_r in T. exact T.
Qed.

Lemma settle_frame (id : nat) (o : promise unit) (w : World) :
  supabaseClient (exec_of (settle id o) w) = supabaseClient w /\
  openai (exec_of (settle id o) w) = openai w.
Proof.
  pose proof (other_actions_frame (ActSettle id o) w) as F. cbv zeta in F.
  destruct F as (_ & _ & _ & ? & ? & _). auto.
Qed.

(** X8: when a credential is emptied while an indexing run is in flight,
    the status bar turns to the not-configured text with the run still in
    flight, and the later completion of that run overwrites it with the
    loaded (or error) text although both commands stay switched off. *)
Theorem run_completion_overwrites_status
    (c : credential) (id : nat) (o : promise unit) (w : World) :
  in_flight id w = true ->
  let w1 := exec_of (onChange_of c []) w in
  let w2 := exec_of (settle id o) w1 in
  statusBarItemEl w1 = STATUS_MISSING /\ in_flight id w1 = true /\
  statusBarItemEl w2 = status_after o /\ disabled w2.
Proof.
  intros Hf w1 w2.
  destruct (credential_saved c [] w) as (w0 & Hw0 & Hc0 & _).
  destruct (setup_of_missing c w0 Hc0) as [Hn Hst]. rewrite <- Hw0 in Hn, Hst. fold w1 in Hn, Hst.
  destruct (credential_change_frame c [] w) as (Hr & _). fold w1 in Hr.
  assert (Hf1 : in_flight id w1 = true) by (unfold in_flight; rewrite Hr; exact Hf).
  destruct (settle_effect id o w1 Hf1) as (Hs2 & _). fold w2 in Hs2.
  destruct (settle_frame id o w1) as [Hsb Hoa]. fold w2 in Hsb, Hoa.
  split; [exact Hst|]. split; [exact Hf1|]. split; [exact Hs2|].
  apply null_client_disables. rewrite Hsb, Hoa. destruct c; simpl in Hn; auto.
Qed.

Lemma run_completion_overwrites_status_witness :
  let w := run_actions [ActCommand RefreshEmbedding false]
             (exec_of onload (initial (Some example_settings))) in
  in_flight O w = true /\
  statusBarItemEl
    (exec_of (settle O (Fulfilled tt)) (exec_of (onChange_of OpenaiKey []) w))
    = STATUS_LOADED.
Proof.
  intros w. split; [reflexivity|].
  exact (proj1 (proj2 (proj2
           (run_completion_overwrites_status OpenaiKey O (Fulfilled tt) w eq_refl)))).
Defined.

(** ** Client objects *)

Lemma step_heap (a : action) (w : World) (x : addr) (o : object) :
  heap w !! x = Some o -> heap (exec_of (step a) w) !! x = Some o.
Proof.
  intros H. pose proof (other_actions_frame a w) as F.
  destruct a as [|c checking|id o'|v|v|v|v|v|v|v];
    try (cbv zeta in F; destruct F as (_ & _ & _ & _ & _ & ->); exact H).
  - unfold step, onChange_supabaseUrl. rewrite credential_handler.
    apply (setup_of_heap SupabaseUrl).
    destruct (stored_and_saved (set_supabaseUrl v) w) as (_ & _ & _ & _ & _ & -> & _). exact H.
  - unfold step, onChange_supabaseKey. rewrite credential_handler.
    apply (setup_of_heap SupabaseUrl).
    destruct (stored_and_saved (set_supabaseKey v) w) as (_ & _ & _ & _ & _ & -> & _). exact H.
  - unfold step, onChange_openaiKey. rewrite credential_handler.
    apply (setup_of_heap OpenaiKey).
    destruct (stored_and_saved (set_openaiKey v) w) as (_ & _ & _ & _ & _ & -> & _). exact H.
Qed.

Lemma run_actions_heap (l : list action) (w : World) (x : addr) (o : object) :
  heap w !! x = Some o -> heap (run_actions l w) !! x = Some o.
Proof.
  revert w. induction l as [|a l IH]; intros w H; simpl; [exact H|].
  apply IH, step_heap, H.
Qed.

(** X9: a run started in an execution holds references to the two client
    objects built from the credentials in force at its start, and whatever
    happens afterwards (credential changes included) these objects stay
    on the heap unchanged: the run keeps the clients of its start. *)
Theorem run_keeps_clients_of_its_start
    (d : option ObsidianAISettings) (before after : list action) (site : origin) :
  let w := run_actions before (exec_of onload (initial d)) in
  configured w = true ->
  let r := new_run site w in
  let w' := run_actions after (exec_of (start_run site) w) in
  exists a b,
    run_supabaseClient r = Val a /\ run_openai r = Val b /\
    heap w' !! a = Some (client_object SupabaseUrl (settings w)) /\
    heap w' !! b = Some (client_object OpenaiKey (settings w)).
Proof.
  intros w Hc r w'.
  destruct (reachable_synced d before) as [H1 H2]. fold w in H1, H2.
  pose proof (synced_configured w H1 H2) as Hp. rewrite Hc in Hp.
  unfold all_credentials_present in Hp. symmetry in Hp. apply andb_true_iff in Hp.
  destruct Hp as [Hp1 Hp2].
  unfold client_synced in H1, H2. rewrite Hp1 in H1. rewrite Hp2 in H2.
  destruct H1 as (a & Ha & Hoa). destruct H2 as (b & Hb & Hob).
  exists a, b. simpl in Ha, Hb. repeat split; try assumption.
  - apply run_actions_heap.
    assert (Hh : heap (exec_of (start_run site) w) = heap w).
    { destruct site.
      - pose proof (other_actions_frame ActLayoutReady w) as F.
        destruct w as [s sb oa st h d' ev rs n cb]. destruct sb, oa; reflexivity.
      - unfold start_run. rewrite exec_of_then_ret.
        destruct w as [s sb oa st h d' ev rs n cb]. destruct sb, oa; reflexivity. }
    rewrite Hh. exact Hoa.
  - apply run_actions_heap.
    assert (Hh : heap (exec_of (start_run site) w) = heap w).
    { destruct site.
      - destruct w as [s sb oa st h d' ev rs n cb]. destruct sb, oa; reflexivity.
      - unfold start_run. rewrite exec_of_then_ret.
        destruct w as [s sb oa st h d' ev rs n cb]. destruct sb, oa; reflexivity. }
    rewrite Hh. exact Hob.
Qed.

Lemma run_keeps_clients_of_its_start_witness :
  let w := run_actions [] (exec_of onload (initial (Some example_settings))) in
  let after := [ActOpenaiKey []; ActSupabaseUrl (of_ascii "https://y.supabase.co")] in
  let w' := run_actions after (exec_of (start_run RefreshCommand) w) in
  configured w = true /\ openai w' = Null /\
  exists a b,
    run_supabaseClient (new_run RefreshCommand w) = Val a /\
    run_openai (new_run RefreshCommand w) = Val b /\
    heap w' !! a = Some (client_object SupabaseUrl (settings w)) /\
    heap w' !! b = Some (client_object OpenaiKey (settings w)).
Proof.
  intros w after w'. split; [reflexivity|]. split; [vm_compute; reflexivity|].
  exact (run_keeps_clients_of_its_start (Some example_settings) [] after RefreshCommand
           eq_refl).
Defined.

(** ** The prompt and the directory lists *)

Lemma trimStart_fixed (s : jsstring) :
  (forall c, head s = Some c -> is_space c = false) -> trimStart s = s.
Proof.
  destruct s as [|c s]; [reflexivity|]. intros H. simpl.
  rewrite (H c eq_refl). reflexivity.
Qed.

Lemma trim_fixed (s : jsstring) : no_outer_space s -> trim s = s.
Proof.
  intros [Hh Hl]. unfold trim, trimEnd.
  rewrite (trimStart_fixed s Hh).
  rewrite trimStart_fixed; [apply reverse_involutive|].
  intros c. rewrite head_reverse. apply Hl.
Qed.

Lemma trim_no_outer_space (s : jsstring) : no_outer_space (trim s).
Proof. destruct (trim_spec s) as (l & r & _ & _ & _ & H). exact H. Qed.

Lemma replace_newlines_fixed (s : jsstring) : LF ∉ s -> replace_newlines false s = s.
Proof.
  induction s as [|c s IH]; [reflexivity|].
  rewrite not_elem_of_cons. intros [Hc Hs]. simpl.
  destruct (N.eqb_spec c LF); [congruence|]. rewrite IH by exact Hs. reflexivity.
Qed.

Lemma oneLine_idempotent (value : jsstring) : oneLine (oneLine value) = oneLine value.
Proof.
  unfold oneLine at 1.
  rewrite replace_newlines_fixed by apply oneLine_no_LF.
  apply trim_fixed. unfold oneLine. apply trim_no_outer_space.
Qed.

(** X10: the Prompt handler is idempotent: entering the stored prompt again
    stores and saves the same settings. *)
Theorem prompt_handler_idempotent (value : jsstring) (w : World) :
  let w1 := exec_of (onChange_prompt value) w in
  let w2 := exec_of (onChange_prompt (prompt (settings w1))) w1 in
  settings w2 = settings w1 /\ data w2 = data w1.
Proof.
  destruct w as [s sb oa st h d ev rs n cb]. destruct s as [url key ok i e el p pl pr].
  cbv zeta. unfold onChange_prompt. run_plugin.
  rewrite oneLine_idempotent. split; reflexivity.
Qed.

(** X11: a text without line feed entered as the prompt is stored with the
    white space at its two ends removed and nothing else changed. *)
Theorem single_line_prompt_only_trimmed (value : jsstring) (w : World) :
  LF ∉ value ->
  let stored := prompt (settings (exec_of (onChange_prompt value) w)) in
  stored = trim value /\
  exists l r, value = l ++ stored ++ r /\ all_space l /\ all_space r /\
              no_outer_space stored.
Proof.
  intros H. cbv zeta.
  assert (E : prompt (settings (exec_of (onChange_prompt value) w)) = trim value).
  { destruct w as [s sb oa st h d ev rs n cb]. simpl. unfold oneLine.
    rewrite replace_newlines_fixed by exact H. reflexivity. }
  rewrite E. split; [reflexivity | apply trim_spec].
Qed.

Lemma single_line_prompt_only_trimmed_witness :
  let value := of_ascii "  You are  a tutor.  " in
  (LF ∉ value) /\
  prompt (settings (exec_of (onChange_prompt value) (exec_of onload (initial None))))
    = of_ascii "You are  a tutor.".
Proof.
  intros value.
  assert (H : LF ∉ value) by (apply (bool_decide_unpack _); vm_compute; exact I).
  split; [exact H|].
  exact (proj1 (single_line_prompt_only_trimmed value (exec_of onload (initial None)) H)).
Defined.

Lemma split_length (sep : N) (s : jsstring) :
  length (split sep s) = S (count_occ N.eq_dec s sep).
Proof.
  induction s as [|c s IH]; [reflexivity|].
  cbn [split count_occ].
  destruct (N.eqb_spec c sep) as [->|Hne].
  - destruct (N.eq_dec sep sep); [|contradiction]. simpl. rewrite IH. reflexivity.
  - destruct (N.eq_dec c sep); [contradiction|].
    pose proof (split_nonempty sep s) as Hn.
    destruct (split sep s) as [|p ps]; [contradiction|]. exact IH.
Qed.

Lemma split_trailing_sep (sep : N) (s : jsstring) :
  split sep (s ++ [sep]) = split sep s ++ [[]].
Proof.
  induction s as [|c s IH]; simpl.
  - rewrite N.eqb_refl. reflexivity.
  - destruct (N.eqb_spec c sep) as [->|Hne].
    + rewrite IH. reflexivity.
    + rewrite IH. pose proof (split_nonempty sep s) as Hn.
      destruct (split sep s) as [|p ps]; [contradiction|]. reflexivity.
Qed.

Lemma trim_all_space (s : jsstring) : trim s = [] <-> all_space s.
Proof.
  split.
  - intros E. destruct (trim_spec s) as (l & r & Hs & Hl & Hr & _).
    rewrite E in Hs. rewrite Hs. simpl. apply Forall_app. split; assumption.
  - intros H. unfold trim, trimEnd.
    assert (E : trimStart s = []).
    { induction H as [|c s Hc _ IH]; [reflexivity|]. simpl. rewrite Hc. exact IH. }
    rewrite E. reflexivity.
Qed.

(** X12: the list stored by the Excluded Directories and Public Directories
    handlers has one entry more than the text has commas; a comma at the
    end of the text adds an empty entry at the end of the list; and the
    list holds an empty entry exactly when some part between the commas is
    blank (empty or white space only). *)
Theorem directory_list_entries (value : jsstring) (w : World) :
  let excluded v := excludedDirsList (settings (exec_of (onChange_excludedDirs v) w)) in
  let public v := publicDirsList (settings (exec_of (onChange_publicDirs v) w)) in
  public value = excluded value /\
  length (excluded value) = S (commas value) /\
  excluded (value ++ [COMMA]) = excluded value ++ [[]] /\
  ([] ∈ excluded value <-> exists part, part ∈ split COMMA value /\ all_space part).
Proof.
  destruct w as [s sb oa st h d ev rs n cb]. cbv zeta. simpl.
  split; [reflexivity|]. split; [|split].
  - rewrite length_map. apply split_length.
  - rewrite split_trailing_sep, map_app. reflexivity.
  - change (map trim (split COMMA value)) with (trim <$> split COMMA value).
    rewrite list_elem_of_fmap. split.
    + intros (part & E & Hp). exists part. split; [exact Hp|].
      apply trim_all_space. auto.
    + intros (part & Hp & Ha). exists part. split; [|exact Hp].
      symmetry. apply trim_all_space, Ha.
Qed.

(** ** The modal *)

Lemma remove_fresh (id : nat) (l : list nat) :
  Forall (fun i => (i < id)%nat) l ->
  filter (fun i => negb (Nat.eqb i id)) (l ++ [id]) = l.
Proof.
  intros H. rewrite filter_app, filter_cons, filter_nil.
  rewrite Nat.eqb_refl. simpl. rewrite app_nil_r.
  induction H as [|i l Hi _ IH]; [reflexivity|].
  rewrite filter_cons. destruct (Nat.eqb_spec i id) as [->|_]; [lia|].
  simpl. rewrite IH. reflexivity.
Qed.

(** X13: closing the modal undoes what opening it did to the document: the
    "keydown" listener added by [onOpen] is the one [onClose] removes, the
    listeners that were there before stay in place, and the Typed instance
    of the modal, if any, is destroyed. *)
Theorem close_removes_own_listener (p : Page) :
  listeners_known p ->
  let q := onClose (onOpen p) in
  pg_listeners (onOpen p) = pg_listeners p ++ [pg_next p] /\
  pg_listeners q = pg_listeners p /\
  listeners_known q /\
  typedInstance (pg_dom q) = destroy <$> typedInstance (pg_dom p) /\
  (forall t, typedInstance (pg_dom q) = Some t -> destroyed t = true).
Proof.
  intros H q. unfold listeners_known in *.
  assert (E : pg_listeners q = pg_listeners p).
  { subst q. simpl. apply remove_fresh, H. }
  split; [reflexivity|]. split; [exact E|]. split; [|split].
  - rewrite E. subst q. simpl.
    eapply Forall_impl; [exact H|]. intros i Hi. simpl in Hi. lia.
  - reflexivity.
  - subst q. simpl. destruct (typedInstance (pg_dom p)) as [t0|]; simpl; intros t [= <-].
    reflexivity.
Qed.

Lemma close_removes_own_listener_witness :
  let p := {| pg_dom := {| typedInstance := Some {| strings := [NO_ANSWER]; typeSpeed := 50;
                                                    showCursor := false;
                                                    destroyed := false |};
                           answerHTML := []; promptInput := [] |};
              pg_keyListener := None; pg_listeners := [O; 2%nat]; pg_next := 3%nat |} in
  listeners_known p /\ pg_listeners (onClose (onOpen p)) = [O; 2%nat].
Proof.
  intros p.
  assert (H : listeners_known p) by (repeat constructor).
  split; [exact H|].
  exact (proj1 (proj2 (close_removes_own_listener p H))).
Defined.



(** X15: choosing a suggestion opens a file of the vault whose resolved
    path is the resolved path of the result's document, the first such
    file; it opens nothing exactly when the vault has no such file; a file
    with the very path of the result is enough for one to be opened. *)
Theorem choose_opens_matching_file
    (resolve : jsstring -> jsstring) (files : list TFile) (result : SearchResult)
    (file : TFile) :
  file ∈ files ->
  file_path file = sr_document_path result ->
  (exists before opened after,
     onChooseSuggestion resolve files result = Some opened /\
     files = before ++ opened :: after /\
     resolve (file_path opened) = resolve (sr_document_path result) /\
     Forall (fun g => resolve (file_path g) <> resolve (sr_document_path result)) before) /\
  (forall others,
     onChooseSuggestion resolve others result = None <->
     Forall (fun g => resolve (file_path g) <> resolve (sr_document_path result)) others).
Proof.
  intros Hin Hp. split.
  - unfold onChooseSuggestion.
    induction files as [|g files IH]; [apply elem_of_nil in Hin; contradiction|].
    simpl. destruct (bool_decide_reflect
                       (resolve (file_path g) = resolve (sr_document_path result))) as [E|E].
    + exists [], g, files. repeat split; [exact E | constructor].
    + apply elem_of_cons in Hin. destruct Hin as [->|Hin]; [rewrite Hp in E; contradiction|].
      destruct (IH Hin) as (b & o & a & Ho & Hf & Hr & Hb).
      exists (g :: b), o, a. repeat split; [exact Ho | simpl; congruence | exact Hr |].
      constructor; assumption.
  - intros others. unfold onChooseSuggestion.
    induction others as [|g others IH]; simpl.
    + split; [constructor | reflexivity].
    + destruct (bool_decide_reflect
                  (resolve (file_path g) = resolve (sr_document_path result))) as [E|E].
      * split; [discriminate|]. intros H. inversion H; contradiction.
      * rewrite IH. split; [constructor; assumption | intros H; inversion H; assumption].
Qed.

Lemma choose_opens_matching_file_witness :
  let resolve := fun p : jsstring => of_ascii "/vault/" ++ p in
  let files := [ {| file_path := of_ascii "a.md" |}; {| file_path := of_ascii "notes/b.md" |} ] in
  let result := {| sr_id := [49]; sr_document_id := [50]; sr_content := [];
                   sr_document_path := of_ascii "notes/b.md";
                   sr_similarity := of_ascii "0.9" |} in
  {| file_path := of_ascii "notes/b.md" |} ∈ files /\
  onChooseSuggestion resolve [] result = None.
Proof.
  intros resolve files result.
  assert (H : {| file_path := of_ascii "notes/b.md" |} ∈ files)
    by (apply elem_of_cons; right; apply elem_of_cons; left; reflexivity).
  split; [exact H|].
  apply (proj2 (choose_opens_matching_file resolve files result _ H eq_refl)).
  constructor.
Defined.

(** ** Index on start, and several runs *)



Lemma other_run_stays (id other : nat) (l : list Run) :
  other <> id ->
  existsb (fun r => Nat.eqb (run_id r) other)
          (filter (fun r => negb (Nat.eqb (run_id r) id)) l)
  = existsb (fun r => Nat.eqb (run_id r) other) l.
Proof.
  intros Hne. induction l as [|r l IH]; [reflexivity|].
  rewrite filter_cons. destruct (Nat.eqb_spec (run_id r) id) as [E|E]; simpl.
  - destruct (Nat.eqb_spec (run_id r) other) as [E'|_]; [congruence | exact IH].
  - rewrite IH. reflexivity.
Qed.

(** X17: the status bar follows the run that settled last, not the runs
    still in flight: when one of two runs in flight settles, the loaded (or
    error) text is written while the other run is still in flight, and that
    run's own completion writes the status again. *)
Theorem status_follows_last_settled_run
    (id other : nat) (o o' : promise unit) (w : World) :
  in_flight id w = true -> in_flight other w = true -> other <> id ->
  let w1 := exec_of (settle id o) w in
  let w2 := exec_of (settle other o') w1 in
  statusBarItemEl w1 = status_after o /\ in_flight other w1 = true /\
  in_flight id w1 = false /\
  statusBarItemEl w2 = status_after o' /\
  effects w2 = EvSetText (status_after o') :: EvSetText (status_after o) :: effects w.
Proof.
  intros H1 H2 Hne w1 w2.
  destruct (settle_effect id o w H1) as (Hs1 & He1 & Hr1). fold w1 in Hs1, He1, Hr1.
  assert (Hf : in_flight other w1 = true).
  { unfold in_flight. rewrite Hr1, other_run_stays by exact Hne. exact H2. }
  destruct (settle_effect other o' w1 Hf) as (Hs2 & He2 & _). fold w2 in Hs2, He2.
  split; [exact Hs1|]. split; [exact Hf|].
  split; [unfold in_flight; rewrite Hr1; apply settled_gone|].
  split; [exact Hs2|]. rewrite He2, He1. reflexivity.
Qed.

Lemma status_follows_last_settled_run_witness :
  let w := run_actions [ActLayoutReady; ActCommand RefreshEmbedding false]
             (exec_of onload (initial (Some example_settings))) in
  in_flight O w = true /\ in_flight (S O) w = true /\
  statusBarItemEl (exec_of (settle O (Fulfilled tt)) w) = STATUS_LOADED /\
  in_flight (S O) (exec_of (settle O (Fulfilled tt)) w) = true.
Proof.
  intros w.
  assert (Hne : S O <> O) by discriminate.
  split; [reflexivity|]. split; [reflexivity|].
  pose proof (status_follows_last_settled_run O (S O) (Fulfilled tt) (Fulfilled tt) w
                eq_refl eq_refl Hne) as H.
  split; [exact (proj1 H) | exact (proj1 (proj2 H))].
Defined.
